(** * rodeo: the [upload] command (commands/upload.go)

    A shallow embedding of the rule matcher, the dedup ledger and the
    per-file upload pipeline of [commands/upload.go], and the properties
    of the specification that concern them.

    Go's [[]string] is [list string]; a [map[string]string] is a
    [gmap string string], or [None] for the nil map.  A function is a
    state transformer over a world made of the files the process reads and
    writes and of the transcript of what it has done; [return], [os.Exit]
    and a panic are outcomes.  Everything the command reaches outside its
    own file (the [internal] package, viper, the Flickr client,
    [encoding/json], [path/filepath], the file system, [os/exec]) is a
    field of an environment, so that every lemma holds for every behaviour
    of these collaborators that satisfies the stated assumptions. *)

From stdpp Require Import base decidable option list strings gmap pretty.

(** ** Data model (the types of package [internal] as [upload.go] uses them) *)

(** [Album]: [album.Id] and [album.Name] are read by [uploadFile]. *)
Record Album := mkAlbum {
  Id : string;
  Name : string
}.

(** [rule.Condition]: the four keyword lists. *)
Record RuleCondition := mkCondition {
  ExcludesAll : list string;
  ExcludesAny : list string;
  IncludesAll : list string;
  IncludesAny : list string
}.

(** [rule.Action]. *)
Record RuleAction := mkAction {
  Delete : bool;
  Albums : list Album
}.

Record Rule := mkRule {
  Condition : RuleCondition;
  Action : RuleAction
}.

(** ** Keyword set algebra

    [Intersection] and [Difference] come from package [internal], which
    [upload.go] dot-imports.  They are operations of a class; the rule
    matcher is written against the class. *)
Class KeywordSets := {
  Intersection : list string → list string → list string;
  Difference : list string → list string → list string
}.

(** Modelled from the spec: the bodies of [Intersection] and [Difference]
    (package [internal]) are described only as "set intersection/difference
    helpers".  The laws below say that much and no more: membership in the
    result, and that the intersection of two duplicate-free lists is
    duplicate-free.  They fix neither the order of the result nor which
    argument it is taken from. *)
Class KeywordSetsLaws (K : KeywordSets) : Prop := {
  elem_of_Intersection a b k : k ∈ Intersection a b ↔ k ∈ a ∧ k ∈ b;
  NoDup_Intersection a b : NoDup a → NoDup b → NoDup (Intersection a b);
  elem_of_Difference a b k : k ∈ Difference a b ↔ k ∈ a ∧ k ∉ b
}.

(** The four condition lists of a rule are keyword sets: no keyword twice. *)
Definition ConditionSets (c : RuleCondition) : Prop :=
  NoDup (ExcludesAll c) ∧ NoDup (ExcludesAny c) ∧
  NoDup (IncludesAll c) ∧ NoDup (IncludesAny c).

(** ** Rule matcher ([uploadFile], lines 125-205) *)

(** One iteration of a [for] body: [continue], or fall through with the
    locals the rest of the body reads. *)
Inductive Iter (A : Type) : Type :=
  | Continue
  | Proceed (a : A).
Arguments Continue {A}.
Arguments Proceed {A} a.

Definition iter_bind {A B} (i : Iter A) (k : A → Iter B) : Iter B :=
  match i with
  | Continue => Continue
  | Proceed a => k a
  end.

(** The accumulators [keywordsToRemove] and [albumsToAddTo]. *)
Record Accumulators := mkAcc {
  keywordsToRemove : list string;
  albumsToAddTo : list Album
}.

Section RuleMatcher.
Context {K : KeywordSets}.

(** Lines 139-148: the [excludesAll] check; [intersection] is the local
    variable of that name. *)
Definition checkExcludesAll (keywords excludesAll intersection : list string)
  : Iter (list string) :=
  if decide (0 < length excludesAll) then
    let intersection := Intersection keywords excludesAll in
    if decide (length intersection = length excludesAll) then Continue
    else Proceed intersection
  else Proceed intersection.

(** Lines 150-159: the [excludesAny] check. *)
Definition checkExcludesAny (keywords excludesAny intersection : list string)
  : Iter (list string) :=
  if decide (0 < length excludesAny) then
    let intersection := Intersection keywords excludesAny in
    if decide (0 < length intersection) then Continue
    else Proceed intersection
  else Proceed intersection.

(** Lines 161-182: [processRules] and the final [intersection]. *)
Definition checkIncludes (keywords includesAll includesAny intersection : list string)
  : Iter (bool * list string) :=
  let processRules := false in
  if decide (0 < length includesAll) then
    let intersection := Intersection keywords includesAll in
    if decide (length intersection ≠ length includesAll) then Continue
    else Proceed (true, intersection)
  else if decide (0 < length includesAny) then
    let intersection := Intersection keywords includesAny in
    if decide (length intersection = 0) then Continue
    else Proceed (true, intersection)
  else Proceed (processRules, intersection).

(** Lines 132-159: both exclude checks, in order. *)
Definition excludeChecks (keywords : list string) (c : RuleCondition)
  : Iter (list string) :=
  iter_bind (checkExcludesAll keywords (ExcludesAll c) [])
    (checkExcludesAny keywords (ExcludesAny c)).

(** Lines 132-182: the condition of one rule. *)
Definition evalCondition (keywords : list string) (c : RuleCondition)
  : Iter (bool * list string) :=
  iter_bind (excludeChecks keywords c)
    (checkIncludes keywords (IncludesAll c) (IncludesAny c)).

(** Lines 187-194: the action of an applicable rule. *)
Definition applyAction (a : RuleAction) (intersection : list string)
    (acc : Accumulators) : Accumulators :=
  let keywordsToRemove' :=
    if Delete a then keywordsToRemove acc ++ intersection
    else keywordsToRemove acc in
  let albumsToAddTo' :=
    if decide (0 < length (Albums a)) then
      foldl (λ albums album, albums ++ [album]) (albumsToAddTo acc) (Albums a)
    else albumsToAddTo acc in
  mkAcc keywordsToRemove' albumsToAddTo'.

(** Lines 131-196: the body of the loop over [config.Rules]. *)
Definition ruleBody (keywords : list string) (acc : Accumulators) (rule : Rule)
  : Accumulators :=
  match evalCondition keywords (Condition rule) with
  | Continue => acc
  | Proceed (processRules, intersection) =>
      if processRules then applyAction (Action rule) intersection acc
      else acc
  end.

(** Lines 126-197: the loop; a nil [config.Rules] is the empty list. *)
Definition evalRules (keywords : list string) (rules : list Rule) : Accumulators :=
  foldl (ruleBody keywords) (mkAcc [] []) rules.

(** Lines 199-205: the keywords sent to Flickr. *)
Definition keywordsToAdd (keywords : list string) (acc : Accumulators)
  : list string :=
  if decide (0 < length (keywordsToRemove acc)) then
    let difference := Difference keywords (keywordsToRemove acc) in
    difference
  else keywords.

(** A rule is applicable, with matched keywords [m], when its condition
    reaches line 184 with [processRules] set. *)
Definition applicable (keywords : list string) (rule : Rule) (m : list string)
  : Prop :=
  evalCondition keywords (Condition rule) = Proceed (true, m).

(** A rule survives the exclude checks when neither of them [continue]s. *)
Definition survivesExcludes (keywords : list string) (rule : Rule) : Prop :=
  excludeChecks keywords (Condition rule) ≠ Continue.

End RuleMatcher.

(** ** Configuration and image metadata (package [internal]) *)

Record FlickrConfig := mkFlickrConfig {
  ApiKey : string;
  ApiSecret : string;
  OauthToken : string;
  OauthSecret : string;
  Username : string
}.

Record CmdConfig := mkCmdConfig {
  Exiftool : string
}.

Record UploadConfig := mkUploadConfig {
  SetDatePosted : bool;
  StoreUploadListInImageDir : bool
}.

Record Config := mkConfig {
  Flickr : FlickrConfig;
  Cmd : CmdConfig;
  Upload : UploadConfig;
  Rules : list Rule
}.

(** [info.Date] is a [*time.Time]: [None] is nil, [Some t] carries
    [t.Unix()]. *)
Record ImageInfo := mkImageInfo {
  Title : string;
  Description : string;
  Keywords : list string;
  Date : option Z
}.

(** A Go [error] value, by its text; [option error] is an [error] that may
    be nil. *)
Abbreviation error := string (only parsing).

(** A value of type [map[string]string]: the nil map, or a map.  Looking a
    key up in the nil map finds nothing; assigning to it panics. *)
Abbreviation GoMap := (option (gmap string string)) (only parsing).

(** [make(map[string]string)] *)
Definition makeMap : GoMap := Some ∅.

(** [v, ok := m[k]] *)
Definition mapIndex (m : GoMap) (k : string) : option string :=
  match m with
  | Some entries => entries !! k
  | None => None
  end.

(** ** The Flickr client library (gopkg.in/masci/flickr.v2) *)
Module flickr.

Record FlickrClient := mkClient {
  ApiKey : string;
  ApiSecret : string;
  OAuthToken : string;
  OAuthTokenSecret : string
}.

Definition NewFlickrClient (apiKey apiSecret : string) : FlickrClient :=
  mkClient apiKey apiSecret "" "".

Record UploadParams := mkUploadParams {
  Title : string;
  Description : string;
  Tags : list string;
  IsPublic : bool;
  IsFamily : bool;
  IsFriend : bool;
  ContentType : Z;
  Hidden : Z;
  SafetyLevel : Z
}.

End flickr.

(** ** The world outside the process *)

(** What the process does to the outside, each with the answer it got. *)
Inductive Event :=
  | Stdout (text : string)
  | OsStat (name : string) (err : option error)
  | ReadFile (name : string) (data : string) (err : option error)
  | WriteFile (name data : string) (perm : Z) (err : option error)
  | GetImageInfoCall (filename exiftool : string) (info : ImageInfo)
      (err : option error)
  | ExecRun (name : string) (args : list string) (dir : string)
      (err : option error)
  | FlickrUploadFile (client : flickr.FlickrClient) (path : string)
      (params : flickr.UploadParams) (responseID : string) (err : option error)
  | PhotosSetDates (client : flickr.FlickrClient)
      (photoId datePosted dateTaken : string) (errorMsg : string)
      (err : option error)
  | PhotosetsAddPhoto (client : flickr.FlickrClient)
      (photosetId photoId : string) (errorMsg : string) (err : option error).

(** The files the process reads and writes itself (the ledgers), and the
    transcript of everything it has done, oldest first. *)
Record World := mkWorld {
  files : gmap string string;
  trace : list Event
}.

(** ** Statements and functions

    A statement runs in a world and either falls through with a value,
    executes [return], calls [os.Exit], or panics. *)
Inductive Step (R A : Type) : Type :=
  | Next (a : A)
  | Return (r : R)
  | Exit (code : Z)
  | Panic (msg : string).
Arguments Next {R A} a.
Arguments Return {R A} r.
Arguments Exit {R A} code.
Arguments Panic {R A} msg.

Definition Stmt (R A : Type) : Type := World → Step R A * World.

(** The outcome of a function call. *)
Inductive Result (A : Type) : Type :=
  | Returned (a : A)
  | Exited (code : Z)
  | Panicked (msg : string).
Arguments Returned {A} a.
Arguments Exited {A} code.
Arguments Panicked {A} msg.

Definition Fn (A : Type) : Type := World → Result A * World.

Definition stmt_ret {R A} (a : A) : Stmt R A := λ w, (Next a, w).

Definition stmt_bind {R A B} (k : A → Stmt R B) (s : Stmt R A) : Stmt R B :=
  λ w, match s w with
       | (Next a, w') => k a w'
       | (Return r, w') => (Return r, w')
       | (Exit c, w') => (Exit c, w')
       | (Panic msg, w') => (Panic msg, w')
       end.

#[global] Instance Stmt_ret {R} : MRet (Stmt R) := @stmt_ret R.
#[global] Instance Stmt_bind {R} : MBind (Stmt R) := @stmt_bind R.

(** [return r] *)
Definition return_ {R A} (r : R) : Stmt R A := λ w, (Return r, w).

(** [os.Exit(code)] *)
Definition os_Exit {R A} (code : Z) : Stmt R A := λ w, (Exit code, w).

(** A run-time panic. *)
Definition panic {R A} (msg : string) : Stmt R A := λ w, (Panic msg, w).

(** A function body: falling off the end and [return] both return. *)
Definition func {A} (body : Stmt A A) : Fn A :=
  λ w, match body w with
       | (Next a, w') | (Return a, w') => (Returned a, w')
       | (Exit c, w') => (Exited c, w')
       | (Panic msg, w') => (Panicked msg, w')
       end.

(** A call inside a statement: the callee's exit or panic ends the caller
    too. *)
Definition call {R A} (f : Fn A) : Stmt R A :=
  λ w, match f w with
       | (Returned a, w') => (Next a, w')
       | (Exited c, w') => (Exit c, w')
       | (Panicked msg, w') => (Panic msg, w')
       end.

(** [if b { s }] *)
Definition when {R} (b : bool) (s : Stmt R unit) : Stmt R unit :=
  if b then s else mret ().

(** [for _, x := range l { st = body(st, x) }] *)
Fixpoint forRange {R A S} (l : list A) (st : S) (body : S → A → Stmt R S)
  : Stmt R S :=
  match l with
  | [] => mret st
  | x :: l' => st' ← body st x; forRange l' st' body
  end.

(** [m[k] = v] *)
Definition mapAssign {R} (m : GoMap) (k v : string) : Stmt R GoMap :=
  match m with
  | Some entries => mret (Some (<[k := v]> entries))
  | None => panic "assignment to entry in nil map"
  end.

(** Append one event to the transcript. *)
Definition emit {R} (e : Event) : Stmt R unit :=
  λ w, (Next (), mkWorld (files w) (trace w ++ [e])).

(** The line feed and the double quote of Go's string literals. *)
Definition LF : string := String (Ascii.ascii_of_nat 10) "".
Definition DQUOTE : string := String (Ascii.ascii_of_nat 34) "".

(** [strings.Join(elems, sep)] *)
Definition strings_Join (elems : list string) (sep : string) : string :=
  String.concat sep elems.

(** [fmt.Print(s)], and [fmt.Printf] once its format is expanded. *)
Definition fmt_Print {R} (s : string) : Stmt R unit := emit (Stdout s).

(** [fmt.Println(args...)]: the operands separated by spaces, then a line
    feed. *)
Definition fmt_Println {R} (args : list string) : Stmt R unit :=
  emit (Stdout (strings_Join args " " +:+ LF)).

(** [err != nil] *)
Definition notNil {A} (o : option A) : bool :=
  match o with Some _ => true | None => false end.

(** The text of an error that is not nil. *)
Definition errorText (o : option error) : string := default "<nil>" o.

(** ** The environment of the command

    What [upload.go] calls and does not define.  An answer that may change
    from one call to the next takes the world (and so the transcript so
    far) as an argument. *)
Class Environment := {
  (** package [internal] *)
  env_keywords :: KeywordSets;
  GetConfig : Config;
  ConfigDir : string;
  GetImageInfo_result : World → string → string → ImageInfo * option error;
  Album_String : Album → string;
  (** viper and cobra *)
  viper_ConfigFileUsed : string;
  viper_GetString : string → string;
  flags_GetBool : string → bool * option error;
  (** [path/filepath] and [strings] *)
  filepath_Dir : string → string;
  filepath_Base : string → string;
  filepath_Ext : string → string;
  strings_Trim : string → string → string;
  strings_TrimSuffix : string → string → string;
  (** [encoding/json]: [MarshalIndent(v, prefix, indent)] gives the bytes
      and an error; [Unmarshal(data, &m)] works on the map it is handed,
      so it takes the map as it was and gives the map as it left it. *)
  json_MarshalIndent : GoMap → string → string → string * option error;
  json_Unmarshal : string → GoMap → GoMap * option error;
  (** the file system: whether reading an existing path fails; whether
      writing a path fails, and then what the failed write has left in the
      file, if it has touched it *)
  ioutil_ReadFile_error : World → string → option error;
  ioutil_WriteFile_error :
    World → string → string → option (error * option string);
  (** [os/exec]: the error of [cmd.Run()] *)
  exec_Run_result : World → string → list string → string → option error;
  (** the Flickr client: [response.ID] or [ErrorMsg()], and the error *)
  flickr_UploadFile_result :
    World → flickr.FlickrClient → string → flickr.UploadParams →
    string * option error;
  photos_SetDates_result :
    World → flickr.FlickrClient → string → string → string →
    string * option error;
  photosets_AddPhoto_result :
    World → flickr.FlickrClient → string → string → string * option error
}.

Section Upload.
Context {E : Environment}.

(** *** Calls to the outside *)

(** [os.Stat(name)]: fails exactly when the file is not there. *)
Definition os_Stat {R} (name : string) : Stmt R (option error) :=
  λ w,
    let err :=
      match files w !! name with
      | Some _ => None
      | None => Some ("stat " +:+ name +:+ ": no such file or directory")
      end in
    (Next err, mkWorld (files w) (trace w ++ [OsStat name err])).

(** [os.IsExist(err)]: not so for the one error [os_Stat] can give. *)
Definition os_IsExist (err : option error) : bool := false.

(** [ioutil.ReadFile(name)] *)
Definition ioutil_ReadFile {R} (name : string) : Stmt R (string * option error) :=
  λ w,
    let r :=
      match files w !! name with
      | None => ("", Some ("open " +:+ name +:+ ": no such file or directory"))
      | Some contents =>
          match ioutil_ReadFile_error w name with
          | Some e => ("", Some e)
          | None => (contents, None)
          end
      end in
    (Next r, mkWorld (files w) (trace w ++ [ReadFile name r.1 r.2])).

(** [ioutil.WriteFile(name, data, perm)]: a write that fails has either
    not touched the file (it could not open it) or left it truncated or
    partly written. *)
Definition ioutil_WriteFile {R} (name data : string) (perm : Z)
  : Stmt R (option error) :=
  λ w,
    let r := ioutil_WriteFile_error w name data in
    let err := fst <$> r in
    (Next err,
     mkWorld (match r with
              | None => <[name := data]> (files w)
              | Some (_, None) => files w
              | Some (_, Some torn) => <[name := torn]> (files w)
              end)
             (trace w ++ [WriteFile name data perm err])).

(** [GetImageInfo(filename, exiftool)] of package [internal]. *)
Definition GetImageInfo {R} (filename exiftool : string)
  : Stmt R (ImageInfo * option error) :=
  λ w,
    let r := GetImageInfo_result w filename exiftool in
    (Next r, mkWorld (files w)
               (trace w ++ [GetImageInfoCall filename exiftool r.1 r.2])).

(** [cmd := exec.Command(name, args...); cmd.Dir = dir; cmd.Run()] *)
Definition exec_Run {R} (name : string) (args : list string) (dir : string)
  : Stmt R (option error) :=
  λ w,
    let err := exec_Run_result w name args dir in
    (Next err, mkWorld (files w) (trace w ++ [ExecRun name args dir err])).

(** [flickr.UploadFile(client, path, &params)] *)
Definition flickr_UploadFile {R} (client : flickr.FlickrClient) (path : string)
    (params : flickr.UploadParams) : Stmt R (string * option error) :=
  λ w,
    let r := flickr_UploadFile_result w client path params in
    (Next r, mkWorld (files w)
               (trace w ++ [FlickrUploadFile client path params r.1 r.2])).

(** [photos.SetDates(client, photoId, datePosted, dateTaken)] *)
Definition photos_SetDates {R} (client : flickr.FlickrClient)
    (photoId datePosted dateTaken : string) : Stmt R (string * option error) :=
  λ w,
    let r := photos_SetDates_result w client photoId datePosted dateTaken in
    (Next r, mkWorld (files w)
               (trace w ++ [PhotosSetDates client photoId datePosted dateTaken
                              r.1 r.2])).

(** [photosets.AddPhoto(client, photosetId, photoId)] *)
Definition photosets_AddPhoto {R} (client : flickr.FlickrClient)
    (photosetId photoId : string) : Stmt R (string * option error) :=
  λ w,
    let r := photosets_AddPhoto_result w client photosetId photoId in
    (Next r, mkWorld (files w)
               (trace w ++ [PhotosetsAddPhoto client photosetId photoId
                              r.1 r.2])).

(** *** The dedup ledger (lines 31, 320-401) *)

Definition uploadedListBaseFilename : string := "rodeo-uploaded-files.json".

Definition getUploadedListFilename (imageFilename : string)
    (storeUploadListInImageDirectory : bool) : string :=
  if storeUploadListInImageDirectory then
    let directory := filepath_Dir imageFilename in
    directory +:+ "/." +:+ uploadedListBaseFilename
  else ConfigDir +:+ "/" +:+ uploadedListBaseFilename.

(** Lines 366-385. *)
Definition readUploadedListFile (uploadedListFilename : string)
  : Fn GoMap :=
  func (
    let filenames := makeMap in
    err ← os_Stat uploadedListFilename;
    if bool_decide (err = None) || os_IsExist err then
      '(data, err) ← ioutil_ReadFile uploadedListFilename;
      when (notNil err)
        (fmt_Print ("Error: " +:+ errorText err +:+ LF);;
         return_ filenames);;
      let '(filenames, err) := json_Unmarshal data filenames in
      when (notNil err) (fmt_Println ["error:"; errorText err]);;
      return_ filenames
    else return_ filenames).

(** Lines 388-401. *)
Definition writeUploadedListFile (filenames : GoMap)
    (uploadedListFilename : string) : Fn unit :=
  func (
    let '(data, err) := json_MarshalIndent filenames "" "  " in
    when (notNil err) (fmt_Println ["error:"; errorText err]);;
    err ← ioutil_WriteFile uploadedListFilename data 436;
    when (notNil err)
      (fmt_Print ("Error: Unable to write " +:+
                  filepath_Base uploadedListFilename +:+ ": " +:+ errorText err);;
       return_ ())).

(** Lines 335-347. *)
Definition getUploadedPhotoId (filename : string)
    (storeUploadedListInImageDirectory : bool) : Fn string :=
  func (
    let uploadedListFilename :=
      getUploadedListFilename filename storeUploadedListInImageDirectory in
    filenames ← call (readUploadedListFile uploadedListFilename);
    let imageFilename := filepath_Base filename in
    match mapIndex filenames imageFilename with
    | Some photoId => return_ photoId
    | None => return_ ""
    end).

(** Lines 350-363. *)
Definition recordUpload (filename photoId : string)
    (storeUploadedListInImageDirectory : bool) : Fn unit :=
  func (
    let imageFilename := filepath_Base filename in
    let uploadedListFilename :=
      getUploadedListFilename filename storeUploadedListInImageDirectory in
    filenames ← call (readUploadedListFile uploadedListFilename);
    when (bool_decide (is_Some (mapIndex filenames imageFilename)))
      (return_ ());;
    filenames ← mapAssign filenames imageFilename photoId;
    call (writeUploadedListFile filenames uploadedListFilename)).

(** *** The per-file pipeline (lines 88-318) *)

(** Lines 208-221: the report of what is going to be done. *)
Definition printActions {R} (keywordsToRemove : list string)
    (albumsToAddTo : list Album) : Stmt R unit :=
  when (bool_decide (0 < length keywordsToRemove) ||
        bool_decide (0 < length albumsToAddTo))
    (fmt_Print ("Actions:" +:+ LF);;
     when (bool_decide (0 < length keywordsToRemove))
       (fmt_Print ("  - keywords to remove: " +:+
                   strings_Join keywordsToRemove ", " +:+ LF));;
     when (bool_decide (0 < length albumsToAddTo))
       (let strs := Name <$> albumsToAddTo in
        fmt_Print ("  - albums to add to: " +:+ strings_Join strs ", " +:+ LF));;
     fmt_Print LF).

(** Lines 229-244: strip the keywords from the file with exiftool. *)
Definition removeKeywordsFromFile {R} (exiftool filename : string)
    (keywordsToRemove : list string) : Stmt R unit :=
  when (bool_decide (0 < length keywordsToRemove) &&
        bool_decide (exiftool ≠ ""))
    (let parameters := ["-overwrite_original"] in
     let parameters :=
       foldl (λ parameters k,
                (parameters ++ ["-keywords-=" +:+ k]) ++ ["-subject-=" +:+ k])
             parameters keywordsToRemove in
     let parameters := parameters ++ [filename] in
     err ← exec_Run exiftool parameters (filepath_Dir filename);
     when (notNil err) (fmt_Println ["Error: "; errorText err])).

(** Lines 253-258: the title of the photo. *)
Definition photoTitle (info : ImageInfo) (filename : string) : string :=
  let title := strings_Trim (Title info) " " in
  if bool_decide (title = "") then
    let title := filepath_Base filename in
    strings_TrimSuffix title (filepath_Ext filename)
  else title.

(** Lines 262-266: each keyword in double quotes. *)
Definition quoteTags (keywordsToAdd : list string) : list string :=
  (λ kw, DQUOTE +:+ kw +:+ DQUOTE) <$> keywordsToAdd.

(** Lines 268-280. *)
Definition uploadParams (title : string) (tags : list string)
    (info : ImageInfo) : flickr.UploadParams :=
  let params :=
    flickr.mkUploadParams title "" tags true true true 1 1 1 in
  if bool_decide (Description info ≠ "") then
    flickr.mkUploadParams (flickr.Title params) (Description info)
      (flickr.Tags params) (flickr.IsPublic params) (flickr.IsFamily params)
      (flickr.IsFriend params) (flickr.ContentType params)
      (flickr.Hidden params) (flickr.SafetyLevel params)
  else params.

(** Lines 291-313: the date posted and the albums. *)
Definition postUpload {R} (config : Config) (client : flickr.FlickrClient)
    (info : ImageInfo) (photoId : string) (albumsToAddTo : list Album)
  : Stmt R unit :=
  let setDatePosted := SetDatePosted (Upload config) in
  when (setDatePosted && notNil (Date info))
    (let datePosted := pretty (default 0%Z (Date info)) in
     '(respSetDate, err) ← photos_SetDates client photoId datePosted "";
     when (notNil err)
       (fmt_Print ("Failed update photo " +:+ photoId +:+ "'s date posted: " +:+
                   errorText err +:+ LF +:+ respSetDate +:+ LF)));;
  when (bool_decide (0 < length albumsToAddTo))
    (forRange albumsToAddTo ()
       (λ _ album,
          '(respAdd, err) ← photosets_AddPhoto client (Id album) photoId;
          if notNil err then
            fmt_Println ["Failed adding photo to the set: " +:+ Album_String album;
                         errorText err; respAdd]
          else
            fmt_Println ["Added photo"; photoId; "to set"; Album_String album])).

(** Lines 88-318. *)
Definition uploadFile (filename : string) (forceUpload dryRun : bool)
  : Fn string :=
  func (
    fmt_Println ["Processing " +:+ filename];;
    let config := GetConfig in
    let apiKey := ApiKey (Flickr config) in
    let apiSecret := ApiSecret (Flickr config) in
    let oauthToken := OauthToken (Flickr config) in
    let oauthTokenSecret := OauthSecret (Flickr config) in
    when (bool_decide (apiKey = "") || bool_decide (apiSecret = "") ||
          bool_decide (oauthToken = "") || bool_decide (oauthTokenSecret = ""))
      (fmt_Println
         ["Unable to continue. Please run the 'rodeo authenticate' command first"]);;
    let exiftool := Exiftool (Cmd config) in
    when (bool_decide (exiftool = ""))
      (fmt_Println ["Error: cmd.exiftool needs to be configured."];;
       fmt_Println ["Config file:"; viper_ConfigFileUsed; LF];;
       os_Exit 2);;
    (* Has this image been uploaded before? *)
    uploadedPhotoId ←
      call (getUploadedPhotoId filename
              (StoreUploadListInImageDir (Upload config)));
    when (bool_decide (uploadedPhotoId ≠ ""))
      (fmt_Print "This image has already been uploaded to Flickr.";;
       if forceUpload then fmt_Println [" Forcing upload."]
       else
         fmt_Print (LF +:+ "View this photo: http://www.flickr.com/photos/" +:+
                    Username (Flickr config) +:+ "/" +:+ uploadedPhotoId +:+ LF);;
         fmt_Println [""];;
         return_ "");;
    '(info, err) ← GetImageInfo filename exiftool;
    when (notNil err) (return_ "");;
    (* process rules *)
    let acc := evalRules (Keywords info) (Rules config) in
    let keywordsToRemove := keywordsToRemove acc in
    let albumsToAddTo := albumsToAddTo acc in
    (* Set the keywords to be added to the Flickr photo record *)
    let keywordsToAdd := keywordsToAdd (Keywords info) acc in
    (* output what we are going to do *)
    printActions keywordsToRemove albumsToAddTo;;
    (* All ready to process now *)
    when dryRun
      (fmt_Println ["Would upload photo to Flickr"];;
       return_ "");;
    removeKeywordsFromFile exiftool filename keywordsToRemove;;
    (* Upload file to Flickr *)
    fmt_Println ["Uploading photo to Flickr"];;
    let client := flickr.NewFlickrClient apiKey apiSecret in
    let client :=
      flickr.mkClient (flickr.ApiKey client) (flickr.ApiSecret client)
        oauthToken oauthTokenSecret in
    let title := photoTitle info filename in
    let tags := quoteTags keywordsToAdd in
    let params := uploadParams title tags info in
    '(responseID, err) ← flickr_UploadFile client filename params;
    when (notNil err)
      (fmt_Println [errorText err];;
       return_ "");;
    let photoId := responseID in
    call (recordUpload filename photoId
            (StoreUploadListInImageDir (Upload config)));;
    fmt_Print ("Uploaded photo '" +:+ title +:+ "'" +:+ LF);;
    postUpload config client info photoId albumsToAddTo;;
    fmt_Print ("View this photo: http://www.flickr.com/photos/" +:+
               Username (Flickr config) +:+ "/" +:+ photoId +:+ LF);;
    fmt_Println [""];;
    return_ photoId).

(** *** The batch driver (lines 52-85) *)

(** The [Run] function of [uploadCmd]; the flags are read through
    [flags_GetBool]. *)
Definition Run (args : list string) : Fn unit :=
  func (
    when (bool_decide (length args = 0))
      (fmt_Println ["Error: At least one file must be specified."];;
       os_Exit 2);;
    let '(forceUpload, err) := flags_GetBool "force" in
    let forceUpload := if notNil err then false else forceUpload in
    let '(dryRun, err) := flags_GetBool "dry-run" in
    let dryRun := if notNil err then false else dryRun in
    photoIds ←
      forRange args []
        (λ photoIds filename,
           photoId ← call (uploadFile filename forceUpload dryRun);
           if bool_decide (photoId ≠ "") then mret (photoIds ++ [photoId])
           else mret photoIds);
    fmt_Println ["All Done"];;
    fmt_Print ("View: http://www.flickr.com/photos/" +:+
               viper_GetString "flickr.username" +:+ "'" +:+ LF);;
    when (bool_decide (0 < length photoIds))
      (fmt_Print ("Edit: http://www.flickr.com/photos/upload/edit/?ids=" +:+
                  strings_Join photoIds "," +:+ LF))).

End Upload.

(** ** The vocabulary of the properties *)

(** [wp s Qn Qa w]: run from [w], the statement [s] ends in a world that
    satisfies [Qn a] when it falls through with [a], and [Qa res] when it
    ends the enclosing function with [res] (a [return], an exit or a
    panic). *)
Definition wp {R A} (s : Stmt R A) (Qn : A → World → Prop)
    (Qa : Result R → World → Prop) (w : World) : Prop :=
  match s w with
  | (Next a, w') => Qn a w'
  | (Return r, w') => Qa (Returned r) w'
  | (Exit c, w') => Qa (Exited c) w'
  | (Panic msg, w') => Qa (Panicked msg) w'
  end.

(** [fwp f Q w]: called in [w], the function [f] ends with a result and a
    world that satisfy [Q]. *)
Definition fwp {A} (f : Fn A) (Q : Result A → World → Prop) (w : World)
  : Prop :=
  Q (f w).1 (f w).2.

(** The world after some more events, the files as they were. *)
Definition extend (w : World) (evs : list Event) : World :=
  mkWorld (files w) (trace w ++ evs).

(** [since w0 P w]: the transcript of [w] is the one of [w0] followed by
    events that all satisfy [P]. *)
Definition since (w0 : World) (P : Event → Prop) (w : World) : Prop :=
  ∃ evs, trace w = trace w0 ++ evs ∧ Forall P evs.

(** The kinds of events.  [reading]: what looking at the ledger does.
    [mutation]: what changes the image file, the ledger or the Flickr
    account.  [ledgerWrite]: a write to a ledger file.  [upload]: a call of [flickr.UploadFile], and [failedUpload]: one
    that returned an error.  [ledgerAccess]: what [recordUpload] does.
    [stripping]: what lines 229-244 do.  [afterUpload]: what lines 291-313
    do. *)
Definition reading (e : Event) : Prop :=
  match e with
  | Stdout _ | OsStat _ _ | ReadFile _ _ _ => True
  | _ => False
  end.

Definition mutation (e : Event) : Prop :=
  match e with
  | WriteFile _ _ _ _ | ExecRun _ _ _ _ | FlickrUploadFile _ _ _ _ _
  | PhotosSetDates _ _ _ _ _ _ | PhotosetsAddPhoto _ _ _ _ _ => True
  | _ => False
  end.




Definition ledgerAccess (e : Event) : Prop :=
  match e with
  | Stdout _ | OsStat _ _ | ReadFile _ _ _ | WriteFile _ _ _ _ => True
  | _ => False
  end.

Definition stripping (e : Event) : Prop :=
  match e with
  | Stdout _ | ExecRun _ _ _ _ => True
  | _ => False
  end.

Definition afterUpload (e : Event) : Prop :=
  match e with
  | Stdout _ | PhotosSetDates _ _ _ _ _ _ | PhotosetsAddPhoto _ _ _ _ _ => True
  | _ => False
  end.

(** The lines that lines 208-221 print for the given accumulators. *)
Definition actionsReport (keywordsToRemove : list string)
    (albumsToAddTo : list Album) : list string :=
  if bool_decide (0 < length keywordsToRemove) ||
     bool_decide (0 < length albumsToAddTo)
  then
    ["Actions:" +:+ LF] ++
    (if bool_decide (0 < length keywordsToRemove)
     then ["  - keywords to remove: " +:+
           strings_Join keywordsToRemove ", " +:+ LF]
     else []) ++
    (if bool_decide (0 < length albumsToAddTo)
     then ["  - albums to add to: " +:+
           strings_Join (Name <$> albumsToAddTo) ", " +:+ LF]
     else []) ++
    [LF]
  else [].

Section Assumptions.
Context {E : Environment}.

(** Reading, respectively writing, the file at [path] does not fail. *)
Definition readable (path : string) : Prop :=
  ∀ w, ioutil_ReadFile_error w path = None.




(** What may follow the fetch of the metadata [info]: no second fetch,
    and no upload but with the tags that lines 199-205 and 262-266 compute
    from [info]. *)
Definition taggedFor (info : ImageInfo) (e : Event) : Prop :=
  match e with
  | GetImageInfoCall _ _ _ _ => False
  | FlickrUploadFile _ _ params _ _ =>
      flickr.Tags params =
      quoteTags (keywordsToAdd (Keywords info)
                   (evalRules (Keywords info) (Rules GetConfig)))
  | _ => True
  end.


End Assumptions.

(** ** A concrete environment

    Small implementations of the collaborators, for running the model on
    examples.  The lemmas of the development do not depend on them. *)
Module Demo.

(** *** Keyword sets: one implementation of the laws *)

Definition intersection (a b : list string) : list string :=
  filter (λ k, k ∈ a) b.

Definition difference (a b : list string) : list string :=
  filter (λ k, k ∉ b) a.

Definition keywordSets : KeywordSets :=
  {| Intersection := intersection; Difference := difference |}.

(** *** Paths of the form [dir/name.ext] *)

Definition slash : Ascii.ascii := Ascii.ascii_of_nat 47.
Definition dot : Ascii.ascii := Ascii.ascii_of_nat 46.

(** [splitLast c s]: the text before the last [c] of [s], if there is
    one, and the text after it. *)
Fixpoint splitLast (c : Ascii.ascii) (s : string) : option string * string :=
  match s with
  | "" => (None, "")
  | String d s' =>
      match splitLast c s' with
      | (Some before, after) => (Some (String d before), after)
      | (None, after) =>
          if bool_decide (d = c) then (Some "", after)
          else (None, String d after)
      end
  end.

Definition base (path : string) : string := (splitLast slash path).2.

Definition dir (path : string) : string :=
  match (splitLast slash path).1 with
  | Some d => if bool_decide (d = "") then "/" else d
  | None => "."
  end.

Definition ext (path : string) : string :=
  match splitLast dot (base path) with
  | (Some _, e) => String dot e
  | (None, _) => ""
  end.

Fixpoint inCutset (c : Ascii.ascii) (cutset : string) : bool :=
  match cutset with
  | "" => false
  | String d cutset' => bool_decide (c = d) || inCutset c cutset'
  end.

Fixpoint trimLeft (s cutset : string) : string :=
  match s with
  | "" => ""
  | String c s' => if inCutset c cutset then trimLeft s' cutset else s
  end.

Definition trim (s cutset : string) : string :=
  String.rev (trimLeft (String.rev (trimLeft s cutset)) cutset).

Definition trimSuffix (s suffix : string) : string :=
  let n := String.length s - String.length suffix in
  if bool_decide (String.substring n (String.length suffix) s = suffix)
  then String.substring 0 n s else s.

(** *** JSON objects of strings

    A codec for the ledger format on plain text: keys and values without
    control characters, and no nested values.  It follows [encoding/json]
    in what the ledger functions can observe:
    - [MarshalIndent] writes the keys in sorted order, one member per line,
      and the nil map as [null];
    - [Unmarshal] checks the syntax of the whole text before it stores
      anything, so a syntax error leaves the map as it was;
    - a member whose value is not a string (a number, [true], [false])
      is stored with the empty string, the first such member is reported
      as the error, and decoding goes on with the next member: a value
      that does not fit the target type is skipped, the rest is decoded as
      well as can be, and the earliest such error is returned;
    - [null] as the whole text sets the map to nil, without an error. *)

Definition backslash : Ascii.ascii := Ascii.ascii_of_nat 92.
Definition dquote : Ascii.ascii := Ascii.ascii_of_nat 34.

Fixpoint escape (s : string) : string :=
  match s with
  | "" => ""
  | String c s' =>
      if bool_decide (c = dquote) || bool_decide (c = backslash)
      then String backslash (String c (escape s'))
      else String c (escape s')
  end.

Definition encodeString (s : string) : string :=
  String dquote (escape s) +:+ String dquote "".

Fixpoint insertSorted (kv : string * string) (l : list (string * string))
  : list (string * string) :=
  match l with
  | [] => [kv]
  | kv' :: l' =>
      if String.leb kv.1 kv'.1 then kv :: l else kv' :: insertSorted kv l'
  end.

Definition sortedMembers (m : gmap string string) : list (string * string) :=
  foldr insertSorted [] (map_to_list m).

Definition marshalIndent (m : GoMap) (prefix indent : string)
  : string * option error :=
  match m with
  | None => ("null", None)
  | Some entries =>
      match sortedMembers entries with
      | [] => ("{}", None)
      | members =>
          let line kv :=
            prefix +:+ indent +:+ encodeString kv.1 +:+ ": " +:+
            encodeString kv.2 in
          ("{" +:+ LF +:+
           String.concat ("," +:+ LF) (line <$> members) +:+
           LF +:+ prefix +:+ "}", None)
      end
  end.

(** The value of a member. *)
Inductive Value :=
  | VString (s : string)
  | VNull
  | VOther (kind : string).

Definition isSpace (c : Ascii.ascii) : bool :=
  bool_decide (c = Ascii.ascii_of_nat 32) || bool_decide (c = Ascii.ascii_of_nat 10) ||
  bool_decide (c = Ascii.ascii_of_nat 13) || bool_decide (c = Ascii.ascii_of_nat 9).

Fixpoint skipSpace (s : string) : string :=
  match s with
  | "" => ""
  | String c s' => if isSpace c then skipSpace s' else s
  end.

(** After an opening quote: the string up to the closing quote, and what
    follows it. *)
Fixpoint scanString (s : string) : option (string * string) :=
  match s with
  | "" => None
  | String c s' =>
      if bool_decide (c = dquote) then Some ("", s')
      else if bool_decide (c = backslash) then
        match s' with
        | String d s'' =>
            if bool_decide (d = dquote) || bool_decide (d = backslash) then
              '(t, rest) ← scanString s''; Some (String d t, rest)
            else None
        | "" => None
        end
      else '(t, rest) ← scanString s'; Some (String c t, rest)
  end.

Definition isNumberChar (c : Ascii.ascii) : bool :=
  let n := Ascii.nat_of_ascii c in
  bool_decide (48 ≤ n ≤ 57) || bool_decide (n = 45) || bool_decide (n = 46).

Fixpoint skipNumber (s : string) : string :=
  match s with
  | "" => ""
  | String c s' => if isNumberChar c then skipNumber s' else s
  end.

Definition dropPrefix (p s : string) : option string :=
  if String.prefix p s
  then Some (String.substring (String.length p) (String.length s - String.length p) s)
  else None.

(** One value, and what follows it. *)
Definition scanValue (s : string) : option (Value * string) :=
  match s with
  | "" => None
  | String c s' =>
      if bool_decide (c = dquote) then
        '(t, rest) ← scanString s'; Some (VString t, rest)
      else if isNumberChar c then Some (VOther "number", skipNumber s')
      else
        match dropPrefix "null" s, dropPrefix "true" s, dropPrefix "false" s with
        | Some rest, _, _ => Some (VNull, rest)
        | _, Some rest, _ => Some (VOther "bool", rest)
        | _, _, Some rest => Some (VOther "bool", rest)
        | _, _, _ => None
        end
  end.

(** The members after an opening brace or a comma, up to the closing
    brace, and what follows it. *)
Fixpoint scanMembers (fuel : nat) (s : string)
  : option (list (string * Value) * string) :=
  match fuel with
  | 0 => None
  | S fuel' =>
      match skipSpace s with
      | String c s1 =>
          if bool_decide (c = dquote) then
            '(key, s2) ← scanString s1;
            match skipSpace s2 with
            | String colon s3 =>
                if bool_decide (colon = Ascii.ascii_of_nat 58) then
                  '(v, s4) ← scanValue (skipSpace s3);
                  match skipSpace s4 with
                  | String sep s5 =>
                      if bool_decide (sep = Ascii.ascii_of_nat 44) then
                        '(members, rest) ← scanMembers fuel' s5;
                        Some ((key, v) :: members, rest)
                      else if bool_decide (sep = Ascii.ascii_of_nat 125) then
                        Some ([(key, v)], s5)
                      else None
                  | "" => None
                  end
                else None
            | "" => None
            end
          else None
      | "" => None
      end
  end.

(** The whole text: an object, [null], or nothing this codec reads. *)
Inductive Document :=
  | DObject (members : list (string * Value))
  | DNull
  | DInvalid.

Definition parseDocument (data : string) : Document :=
  match skipSpace data with
  | String c s1 =>
      if bool_decide (c = Ascii.ascii_of_nat 123) then
        match skipSpace s1 with
        | String d s2 =>
            if bool_decide (d = Ascii.ascii_of_nat 125) then
              if bool_decide (skipSpace s2 = "") then DObject [] else DInvalid
            else
              match scanMembers (String.length data) s1 with
              | Some (members, rest) =>
                  if bool_decide (skipSpace rest = "") then DObject members
                  else DInvalid
              | None => DInvalid
              end
        | "" => DInvalid
        end
      else
        match dropPrefix "null" (skipSpace data) with
        | Some rest =>
            if bool_decide (skipSpace rest = "") then DNull else DInvalid
        | None => DInvalid
        end
  | "" => DInvalid
  end.

(** Store one member; remember the first value of the wrong type. *)
Definition storeMember (st : gmap string string * option error)
    (kv : string * Value) : gmap string string * option error :=
  match kv.2 with
  | VString v => (<[kv.1 := v]> st.1, st.2)
  | VNull => (<[kv.1 := ""]> st.1, st.2)
  | VOther kind =>
      (<[kv.1 := ""]> st.1,
       match st.2 with
       | Some e => Some e
       | None =>
           Some ("json: cannot unmarshal " +:+ kind +:+
                 " into Go value of type string")
       end)
  end.

Definition unmarshal (data : string) (m : GoMap) : GoMap * option error :=
  match parseDocument data with
  | DInvalid => (m, Some "invalid character looking for beginning of value")
  | DNull => (None, None)
  | DObject members =>
      let r := foldl storeMember (default ∅ m, None) members in
      (Some r.1, r.2)
  end.

(** *** The environment *)

(** The answers that differ from one example to the next. *)
Record Answers := mkAnswers {
  theConfig : Config;
  theFlags : bool * bool;
  theImageInfo : ImageInfo * option error;
  theUpload : string * option error;
  theWriteError : option error
}.

Definition env (a : Answers) : Environment := {|
  env_keywords := keywordSets;
  GetConfig := theConfig a;
  ConfigDir := "/home/rob/.config/rodeo";
  GetImageInfo_result := λ _ _ _, theImageInfo a;
  Album_String := λ album, Name album +:+ " (" +:+ Id album +:+ ")";
  viper_ConfigFileUsed := "/home/rob/.config/rodeo/rodeo.yaml";
  viper_GetString := λ _, Username (Flickr (theConfig a));
  flags_GetBool := λ name,
    if bool_decide (name = "force") then ((theFlags a).1, None)
    else ((theFlags a).2, None);
  filepath_Dir := dir;
  filepath_Base := base;
  filepath_Ext := ext;
  strings_Trim := trim;
  strings_TrimSuffix := trimSuffix;
  json_MarshalIndent := marshalIndent;
  json_Unmarshal := unmarshal;
  ioutil_ReadFile_error := λ _ _, None;
  ioutil_WriteFile_error := λ _ _ _, (λ e, (e, None)) <$> theWriteError a;
  exec_Run_result := λ _ _ _ _, None;
  flickr_UploadFile_result := λ _ _ _ _, theUpload a;
  photos_SetDates_result := λ _ _ _ _ _, ("", None);
  photosets_AddPhoto_result := λ _ _ _ _, ("", None)
|}.

(** The rule of the end-to-end scenario of the specification: strip the
    keyword [private]. *)
Definition privateRule : Rule :=
  mkRule (mkCondition [] [] [] ["private"]) (mkAction true []).

(** A rule that files family pictures into an album, unless they are
    drafts. *)
Definition familyRule : Rule :=
  mkRule (mkCondition ["draft"; "wip"] ["hidden"] ["family"] [])
         (mkAction false [mkAlbum "7215" "Family"]).

Definition flickrConfig : FlickrConfig :=
  mkFlickrConfig "key" "secret" "token" "tokensecret" "rob".

Definition config : Config :=
  mkConfig flickrConfig (mkCmdConfig "/usr/bin/exiftool")
    (mkUploadConfig true true) [privateRule; familyRule].

Definition imageInfo : ImageInfo :=
  mkImageInfo "" "" ["private"; "family"] (Some 1577880000%Z).

Definition answers : Answers :=
  mkAnswers config (false, false) (imageInfo, None) ("5001", None) None.


(** The same, before [rodeo authenticate] has stored any credential;
    Flickr refuses the upload. *)
Definition noCredentials : Answers :=
  mkAnswers
    (mkConfig (mkFlickrConfig "" "" "" "" "rob") (mkCmdConfig "/usr/bin/exiftool")
       (mkUploadConfig true true) [privateRule; familyRule])
    (false, false) (imageInfo, None)
    ("", Some "Invalid API Key (Key has invalid format)") None.

(** The client and the parameters of the upload of the scenario. *)
Definition client : flickr.FlickrClient :=
  flickr.mkClient "key" "secret" "token" "tokensecret".

Definition params : flickr.UploadParams :=
  uploadParams "IMG_1" (quoteTags ["family"]) imageInfo.

(** A world with no ledger and nothing done yet. *)
Definition emptyWorld : World := mkWorld ∅ [].

(** A ledger file with a member that is not a string, and a world that
    has it. *)
Definition corruptLedger : string :=
  "{" +:+ DQUOTE +:+ "a.jpg" +:+ DQUOTE +:+ ": " +:+
          DQUOTE +:+ "1" +:+ DQUOTE +:+ ", " +:+
          DQUOTE +:+ "b.jpg" +:+ DQUOTE +:+ ": 2}".

Definition ledgerPath : string := "photos/.rodeo-uploaded-files.json".

Definition corruptWorld : World :=
  mkWorld {[ ledgerPath := corruptLedger ]} [].


End Demo.

(** * Properties *)

(** ** The rule matcher *)

Section RuleMatcherProperties.
Context {K : KeywordSets} {L : KeywordSetsLaws K}.

(** The length test of lines 142 and 165 decides containment, on keyword
    sets. *)
Lemma Intersection_length_all (keywords l : list string) :
  NoDup keywords → NoDup l →
  length (Intersection keywords l) = length l ↔ ∀ k, k ∈ l → k ∈ keywords.
Proof.
  intros Hkw Hl.
  assert (Hsub : Intersection keywords l ⊆+ l).
  { apply NoDup_submseteq; [by apply NoDup_Intersection|].
    intros k Hk. by apply elem_of_Intersection in Hk as [_ ?]. }
  split.
  - intros Hlen k Hk.
    apply submseteq_length_Permutation in Hsub; [|lia].
    rewrite <- Hsub in Hk. by apply elem_of_Intersection in Hk as [? _].
  - intros Hall. apply Nat.le_antisymm; [by apply submseteq_length|].
    apply submseteq_length, NoDup_submseteq; [done|].
    intros k Hk. apply elem_of_Intersection. auto.
Qed.

(** The length test of lines 153 and 175 decides whether the two lists
    meet. *)
Lemma Intersection_length_any (keywords l : list string) :
  0 < length (Intersection keywords l) ↔ ∃ k, k ∈ l ∧ k ∈ keywords.
Proof.
  split.
  - destruct (Intersection keywords l) as [|k i] eqn:Hi; simpl; [lia|].
    intros _. exists k.
    assert (Hk : k ∈ Intersection keywords l) by (rewrite Hi; left).
    apply elem_of_Intersection in Hk. tauto.
  - intros (k & Hl & Hkw).
    assert (Hk : k ∈ Intersection keywords l)
      by (apply elem_of_Intersection; done).
    destruct (Intersection keywords l); [by apply elem_of_nil in Hk|simpl; lia].
Qed.

Lemma length_pos_ne_nil {A} (l : list A) : 0 < length l ↔ l ≠ [].
Proof. destruct l; simpl; split; (done || lia). Qed.

(** The album loop of lines 190-194 appends the rule's albums. *)
Lemma foldl_snoc {A} (l acc : list A) :
  foldl (λ albums album, albums ++ [album]) acc l = acc ++ l.
Proof.
  revert acc. induction l as [|x l IH]; intros acc; simpl.
  - by rewrite app_nil_r.
  - by rewrite IH, <- app_assoc.
Qed.

Lemma applyAction_eq (a : RuleAction) (m : list string) (acc : Accumulators) :
  applyAction a m acc =
  mkAcc (if Delete a then keywordsToRemove acc ++ m else keywordsToRemove acc)
        (albumsToAddTo acc ++ Albums a).
Proof.
  unfold applyAction. f_equal. case_decide as Hlen.
  - apply foldl_snoc.
  - destruct (Albums a); simpl in *; [by rewrite app_nil_r|lia].
Qed.

(** What one turn of the loop does, by the outcome of the condition. *)
Lemma ruleBody_applicable keywords acc rule m :
  applicable keywords rule m →
  ruleBody keywords acc rule = applyAction (Action rule) m acc.
Proof. unfold applicable, ruleBody. by intros ->. Qed.

Lemma ruleBody_not_applicable keywords acc rule :
  (∀ m, ¬ applicable keywords rule m) → ruleBody keywords acc rule = acc.
Proof.
  unfold applicable, ruleBody. intros Hno.
  destruct (evalCondition _ _) as [|[[] m]]; [done| |done].
  by destruct (Hno m).
Qed.

(** The [excludesAll] check stops the rule exactly when the list is not
    empty and all of it is among the keywords. *)
Lemma checkExcludesAll_Continue keywords excludesAll i :
  NoDup keywords → NoDup excludesAll →
  checkExcludesAll keywords excludesAll i = Continue ↔
  excludesAll ≠ [] ∧ ∀ k, k ∈ excludesAll → k ∈ keywords.
Proof.
  intros Hkw Hex. unfold checkExcludesAll.
  rewrite <- length_pos_ne_nil, <- Intersection_length_all by done.
  repeat case_decide; intuition congruence.
Qed.

(** The [excludesAny] check stops the rule exactly when one keyword of the
    list is among the keywords. *)
Lemma checkExcludesAny_Continue keywords excludesAny i :
  checkExcludesAny keywords excludesAny i = Continue ↔
  excludesAny ≠ [] ∧ ∃ k, k ∈ excludesAny ∧ k ∈ keywords.
Proof.
  unfold checkExcludesAny.
  rewrite <- length_pos_ne_nil, <- Intersection_length_any.
  repeat case_decide; intuition congruence.
Qed.

Lemma excludeChecks_Continue keywords c :
  NoDup keywords → NoDup (ExcludesAll c) →
  excludeChecks keywords c = Continue ↔
  (ExcludesAll c ≠ [] ∧ ∀ k, k ∈ ExcludesAll c → k ∈ keywords) ∨
  (ExcludesAny c ≠ [] ∧ ∃ k, k ∈ ExcludesAny c ∧ k ∈ keywords).
Proof.
  intros Hkw Hex. unfold excludeChecks.
  rewrite <- (checkExcludesAll_Continue keywords (ExcludesAll c) []) by done.
  destruct (checkExcludesAll _ _ _) as [|i] eqn:Hall; simpl.
  - tauto.
  - rewrite checkExcludesAny_Continue. intuition congruence.
Qed.

(** Dropping a rule that leaves the accumulators alone does not change
    the outcome of the loop. *)
Lemma evalRules_drop keywords rule before after :
  (∀ acc, ruleBody keywords acc rule = acc) →
  evalRules keywords (before ++ rule :: after) =
  evalRules keywords (before ++ after).
Proof.
  intros Hrule. unfold evalRules.
  rewrite !foldl_app. simpl. by rewrite Hrule.
Qed.

(** C3: a rule whose non-empty [excludesAll] is wholly among the image's
    keywords, or whose non-empty [excludesAny] has a keyword among them, is
    skipped: its condition ends in [continue], its turn of the loop leaves
    [keywordsToRemove] and [albumsToAddTo] as they were, and the outcome of
    the whole loop is the one of the rule list without it. *)
Theorem excluded_rule_contributes_nothing keywords rule :
  NoDup keywords → ConditionSets (Condition rule) →
  (ExcludesAll (Condition rule) ≠ [] ∧
   ∀ k, k ∈ ExcludesAll (Condition rule) → k ∈ keywords) ∨
  (ExcludesAny (Condition rule) ≠ [] ∧
   ∃ k, k ∈ ExcludesAny (Condition rule) ∧ k ∈ keywords) →
  evalCondition keywords (Condition rule) = Continue ∧
  (∀ acc, ruleBody keywords acc rule = acc) ∧
  (∀ before after,
     evalRules keywords (before ++ rule :: after) =
     evalRules keywords (before ++ after)).
Proof.
  intros Hkw (Hex & _) Hexcl.
  apply excludeChecks_Continue in Hexcl; [|done..].
  assert (Hcond : evalCondition keywords (Condition rule) = Continue)
    by (unfold evalCondition; by rewrite Hexcl).
  assert (Hbody : ∀ acc, ruleBody keywords acc rule = acc)
    by (intros acc; unfold ruleBody; by rewrite Hcond).
  split_and!; [done..|].
  intros before after. by apply evalRules_drop.
Qed.

(** C2: for a rule that survives the exclude checks:
    - with a non-empty [includesAll], the rule is applicable exactly when
      every keyword of [includesAll] is among the image's keywords, and its
      matched keywords are then [includesAll], up to order;
    - otherwise, with a non-empty [includesAny], it is applicable exactly
      when some keyword of [includesAny] is among the image's keywords, and
      its matched keywords are then the keywords of the image that are in
      [includesAny];
    - with both empty it is never applicable and leaves the accumulators
      as they were. *)
Theorem include_conditions_decide_applicability keywords rule :
  NoDup keywords → ConditionSets (Condition rule) →
  survivesExcludes keywords rule →
  (IncludesAll (Condition rule) ≠ [] →
     ((∃ m, applicable keywords rule m) ↔
      ∀ k, k ∈ IncludesAll (Condition rule) → k ∈ keywords) ∧
     (∀ m, applicable keywords rule m → m ≡ₚ IncludesAll (Condition rule))) ∧
  (IncludesAll (Condition rule) = [] → IncludesAny (Condition rule) ≠ [] →
     ((∃ m, applicable keywords rule m) ↔
      ∃ k, k ∈ IncludesAny (Condition rule) ∧ k ∈ keywords) ∧
     (∀ m, applicable keywords rule m →
        ∀ k, k ∈ m ↔ k ∈ keywords ∧ k ∈ IncludesAny (Condition rule))) ∧
  (IncludesAll (Condition rule) = [] → IncludesAny (Condition rule) = [] →
     (∀ m, ¬ applicable keywords rule m) ∧
     (∀ acc, ruleBody keywords acc rule = acc)).
Proof.
  intros Hkw (_ & _ & Hall & _) Hsurv.
  unfold survivesExcludes in Hsurv. unfold applicable, evalCondition.
  destruct (excludeChecks keywords (Condition rule)) as [|i] eqn:Hex; [done|].
  simpl. unfold checkIncludes.
  pose proof (Intersection_length_all keywords _ Hkw Hall) as Hlen.
  pose proof (Intersection_length_any keywords (IncludesAny (Condition rule)))
    as Hany.
  split_and!.
  - intros Hne. apply length_pos_ne_nil in Hne.
    rewrite decide_True by done. split.
    + rewrite <- Hlen. case_decide; [|split; eauto with lia].
      split; [by intros [m ?]|done].
    + intros m. case_decide; [done|]. intros [= <-].
      apply NoDup_Permutation; [by apply NoDup_Intersection|done|].
      intros k. rewrite elem_of_Intersection.
      assert (Hin : ∀ k, k ∈ IncludesAll (Condition rule) → k ∈ keywords)
        by (apply Hlen; lia).
      specialize (Hin k). tauto.
  - intros Hnil Hne. apply length_pos_ne_nil in Hne.
    rewrite Hnil. simpl. rewrite (decide_True _ _ Hne). split.
    + rewrite <- Hany. case_decide; split; try (by intros [m ?]); try lia.
      eauto.
    + intros m. case_decide; [done|]. intros [= <-] k.
      apply elem_of_Intersection.
  - intros Hnil Hnil'.
    assert (Hno : ∀ m, ¬ applicable keywords rule m).
    { intros m. unfold applicable, evalCondition, checkIncludes.
      rewrite Hex, Hnil, Hnil'. by simpl. }
    split; [|intros acc; by apply ruleBody_not_applicable].
    rewrite Hnil, Hnil'. by simpl.
Qed.

(** Lines 199-205, for the accumulators that the loop has produced. *)
Lemma keywordsToAdd_spec keywords rules :
  (keywordsToRemove (evalRules keywords rules) ≠ [] →
   keywordsToAdd keywords (evalRules keywords rules) =
     Difference keywords (keywordsToRemove (evalRules keywords rules)) ∧
   ∀ k, k ∈ keywordsToAdd keywords (evalRules keywords rules) ↔
        k ∈ keywords ∧ k ∉ keywordsToRemove (evalRules keywords rules)) ∧
  (keywordsToRemove (evalRules keywords rules) = [] →
   keywordsToAdd keywords (evalRules keywords rules) = keywords).
Proof.
  unfold keywordsToAdd. split.
  - intros Hne. apply length_pos_ne_nil in Hne.
    rewrite decide_True by done. split; [done|].
    intros k. apply elem_of_Difference.
  - intros ->. by rewrite decide_False by (simpl; lia).
Qed.

End RuleMatcherProperties.

(** ** Reasoning about statements *)

Section WeakestPreconditions.
Context {R A : Type}.
Implicit Types (Qn : A → World → Prop) (Qa : Result R → World → Prop).

Lemma wp_ret (a : A) Qn Qa w : Qn a w → wp (mret a : Stmt R A) Qn Qa w.
Proof. done. Qed.

Lemma wp_return (r : R) Qn Qa w :
  Qa (Returned r) w → wp (return_ r : Stmt R A) Qn Qa w.
Proof. done. Qed.

Lemma wp_exit (c : Z) Qn Qa w :
  Qa (Exited c) w → wp (os_Exit c : Stmt R A) Qn Qa w.
Proof. done. Qed.

Lemma wp_panic (msg : string) Qn Qa w :
  Qa (Panicked msg) w → wp (panic msg : Stmt R A) Qn Qa w.
Proof. done. Qed.

Lemma wp_bind {B} (m : Stmt R B) (k : B → Stmt R A) Qn Qa w :
  wp m (λ b w', wp (k b) Qn Qa w') Qa w → wp (m ≫= k) Qn Qa w.
Proof.
  unfold wp, mbind, Stmt_bind, stmt_bind.
  by destruct (m w) as [[b|r|c|msg] w'].
Qed.

Lemma wp_mono (s : Stmt R A) Qn Qn' Qa Qa' w :
  wp s Qn Qa w →
  (∀ a w', Qn a w' → Qn' a w') →
  (∀ res w', Qa res w' → Qa' res w') →
  wp s Qn' Qa' w.
Proof. unfold wp. destruct (s w) as [[a|r|c|msg] w']; eauto. Qed.

Lemma wp_call (f : Fn A) Qn Qa w :
  fwp f (λ res w',
           match res with
           | Returned a => Qn a w'
           | Exited c => Qa (Exited c) w'
           | Panicked msg => Qa (Panicked msg) w'
           end) w →
  wp (call f : Stmt R A) Qn Qa w.
Proof. unfold fwp, wp, call. by destruct (f w) as [[a|c|msg] w']. Qed.

End WeakestPreconditions.

Lemma wp_emit {R} (e : Event) (Qn : unit → World → Prop)
    (Qa : Result R → World → Prop) w :
  Qn () (extend w [e]) → wp (emit e) Qn Qa w.
Proof. done. Qed.

Lemma wp_Print {R} (s : string) (Qn : unit → World → Prop)
    (Qa : Result R → World → Prop) w :
  Qn () (extend w [Stdout s]) → wp (fmt_Print s) Qn Qa w.
Proof. done. Qed.

Lemma wp_Println {R} (args : list string) (Qn : unit → World → Prop)
    (Qa : Result R → World → Prop) w :
  Qn () (extend w [Stdout (strings_Join args " " +:+ LF)]) →
  wp (fmt_Println args) Qn Qa w.
Proof. done. Qed.

Lemma wp_when {R} (b : bool) (s : Stmt R unit) (Qn : unit → World → Prop)
    (Qa : Result R → World → Prop) w :
  (b = true → wp s Qn Qa w) → (b = false → Qn () w) →
  wp (when b s) Qn Qa w.
Proof.
  intros Ht Hf. unfold when. destruct b; [by apply Ht|].
  apply wp_ret. by apply Hf.
Qed.

Lemma fwp_func {A} (body : Stmt A A) (Q : Result A → World → Prop) w :
  wp body (λ a, Q (Returned a)) Q w → fwp (func body) Q w.
Proof.
  unfold wp, fwp, func. by destruct (body w) as [[a|r|c|msg] w'].
Qed.

Lemma fwp_mono {A} (f : Fn A) (Q Q' : Result A → World → Prop) w :
  fwp f Q w → (∀ res w', Q res w' → Q' res w') → fwp f Q' w.
Proof. unfold fwp. auto. Qed.

(** A loop keeps what every turn keeps. *)
Lemma wp_forRange {R A S} (I : S → World → Prop) (l : list A) (st : S)
    (body : S → A → Stmt R S) (Qa : Result R → World → Prop) w :
  I st w →
  (∀ st x w, x ∈ l → I st w → wp (body st x) I Qa w) →
  wp (forRange l st body) I Qa w.
Proof.
  revert st w. induction l as [|x l IH]; intros st w Hst Hbody; simpl.
  - by apply wp_ret.
  - apply wp_bind. eapply wp_mono.
    + apply Hbody; [left|done].
    + intros st' w' Hst'. apply IH; [done|].
      intros ? ? ? ?. apply Hbody. by right.
    + done.
Qed.

(** *** What has happened since a given world *)

Lemma since_refl w P : since w P w.
Proof. exists []. by rewrite app_nil_r. Qed.

Lemma since_extend w0 P w evs :
  since w0 P w → Forall P evs → since w0 P (extend w evs).
Proof.
  intros (evs0 & Htr & Hall) Hevs. exists (evs0 ++ evs). simpl.
  rewrite Htr, <- app_assoc. split; [done|].
  apply Forall_app. auto.
Qed.

Lemma extend_nil w : extend w [] = w.
Proof. destruct w. unfold extend. simpl. by rewrite app_nil_r. Qed.

Lemma extend_extend w evs1 evs2 :
  extend (extend w evs1) evs2 = extend w (evs1 ++ evs2).
Proof. unfold extend. simpl. by rewrite app_assoc. Qed.

Lemma since_weaken w0 (P P' : Event → Prop) w :
  since w0 P w → (∀ e, P e → P' e) → since w0 P' w.
Proof.
  intros (evs & Htr & Hall) Himp. exists evs. split; [done|].
  eapply Forall_impl; eauto.
Qed.

Lemma since_trans w0 w1 P w :
  since w0 P w1 → since w1 P w → since w0 P w.
Proof.
  intros (evs1 & Htr1 & Hall1) (evs2 & Htr2 & Hall2).
  exists (evs1 ++ evs2). rewrite Htr2, Htr1, <- app_assoc.
  split; [done|]. apply Forall_app. auto.
Qed.

(** *** Tactics and small facts *)

(** Every event of a list written out is of the expected kind. *)
Ltac events :=
  repeat first [ apply Forall_nil_2
               | apply Forall_cons_2; [simpl; tauto|]
               | apply Forall_app_2
               | eassumption ].

Lemma wp_run {R A} (s : Stmt R A) Qn Qa w a w' :
  s w = (Next a, w') → Qn a w' → wp s Qn Qa w.
Proof. unfold wp. by intros ->. Qed.

Lemma wp_cut {R B A} (M : B → World → Prop) (m : Stmt R B) (k : B → Stmt R A)
    Qn Qa w :
  wp m M Qa w → (∀ b w', M b w' → wp (k b) Qn Qa w') → wp (m ≫= k) Qn Qa w.
Proof.
  intros Hm Hk. apply wp_bind. eapply wp_mono; [exact Hm|exact Hk|done].
Qed.

Lemma fwp_elim {A} (f : Fn A) (Q : Result A → World → Prop) w :
  fwp f Q w → ∃ res w', f w = (res, w') ∧ Q res w'.
Proof. unfold fwp. intros HQ. exists (f w).1, (f w).2. by destruct (f w). Qed.

Lemma since_snoc w0 P fs tr e :
  since w0 P (mkWorld fs tr) → P e → since w0 P (mkWorld fs (tr ++ [e])).
Proof. intros Hs He. by apply (since_extend _ _ _ [e]) in Hs; [|events]. Qed.

Lemma since_same_trace w0 P w : trace w = trace w0 → since w0 P w.
Proof. intros Htr. exists []. by rewrite app_nil_r. Qed.

Ltac since_raw :=
  repeat (apply since_snoc; [|simpl; tauto]); by apply since_same_trace.

(** One step of a statement. *)
Ltac wp_prim :=
  first [ apply wp_Println | apply wp_Print | apply wp_return | apply wp_exit
        | apply wp_ret ].

Ltac wp_seq := apply wp_bind; cbv zeta.

Lemma reading_not_mutation e : reading e → ¬ mutation e.
Proof. destruct e; simpl; tauto. Qed.

Lemma reading_no_GetImageInfoCall evs filename exiftool info err :
  Forall reading evs → GetImageInfoCall filename exiftool info err ∉ evs.
Proof.
  intros Hall Hin. rewrite Forall_forall in Hall. by apply Hall in Hin.
Qed.

(** ** The dedup ledger *)

Section LedgerProperties.
Context {E : Environment}.

Lemma readUploadedListFile_absent path w :
  files w !! path = None →
  readUploadedListFile path w =
  (Returned makeMap,
   extend w [OsStat path
               (Some ("stat " +:+ path +:+ ": no such file or directory"))]).
Proof.
  intros Hf.
  unfold readUploadedListFile, func, mbind, Stmt_bind, stmt_bind, os_Stat.
  by rewrite Hf.
Qed.

Lemma readUploadedListFile_present path w data :
  files w !! path = Some data →
  ioutil_ReadFile_error (extend w [OsStat path None]) path = None →
  readUploadedListFile path w =
  (Returned (json_Unmarshal data makeMap).1,
   extend w ([OsStat path None; ReadFile path data None] ++
             match (json_Unmarshal data makeMap).2 with
             | Some e => [Stdout (strings_Join ["error:"; e] " " +:+ LF)]
             | None => []
             end)).
Proof.
  intros Hf Hr.
  unfold readUploadedListFile, func, mbind, Stmt_bind, stmt_bind, os_Stat,
    ioutil_ReadFile.
  rewrite Hf. simpl. unfold extend in Hr. rewrite Hf. simpl. rewrite Hr. simpl.
  destruct (json_Unmarshal data makeMap) as [m [e|]]; simpl;
    unfold extend; simpl; by rewrite <- ?app_assoc.
Qed.

Lemma readUploadedListFile_unreadable path w data e :
  files w !! path = Some data →
  ioutil_ReadFile_error (extend w [OsStat path None]) path = Some e →
  readUploadedListFile path w =
  (Returned makeMap,
   extend w [OsStat path None; ReadFile path "" (Some e);
             Stdout ("Error: " +:+ e +:+ LF)]).
Proof.
  intros Hf Hr.
  unfold readUploadedListFile, func, mbind, Stmt_bind, stmt_bind, os_Stat,
    ioutil_ReadFile.
  rewrite Hf. simpl. rewrite Hf. simpl.
  unfold extend in Hr. rewrite Hr. simpl.
  unfold extend; simpl; by rewrite <- ?app_assoc.
Qed.

(** Reading the ledger returns a map, changes no file, and does nothing
    but stat, read and print. *)
Lemma readUploadedListFile_run path w :
  ∃ m evs, readUploadedListFile path w = (Returned m, extend w evs) ∧
           Forall reading evs.
Proof.
  destruct (files w !! path) as [data|] eqn:Hf.
  - destruct (ioutil_ReadFile_error (extend w [OsStat path None]) path)
      as [e|] eqn:Hr.
    + rewrite (readUploadedListFile_unreadable _ _ _ _ Hf Hr).
      eexists _, _. split; [done|]. by repeat constructor.
    + rewrite (readUploadedListFile_present _ _ _ Hf Hr).
      eexists _, _. split; [done|].
      destruct (json_Unmarshal data makeMap).2; by repeat constructor.
  - rewrite (readUploadedListFile_absent _ _ Hf).
    eexists _, _. split; [done|]. by repeat constructor.
Qed.



Lemma writeUploadedListFile_result m path w :
  (writeUploadedListFile m path w).1 = Returned ().
Proof.
  unfold writeUploadedListFile, func, mbind, Stmt_bind, stmt_bind,
    ioutil_WriteFile.
  destruct (json_MarshalIndent m "" "  ") as [data [e|]]; simpl;
    by destruct (ioutil_WriteFile_error _ _ _) as [[? [?|]]|].
Qed.



(** [recordUpload], by cases on what it read. *)
Lemma recordUpload_unfold filename photoId store w :
  recordUpload filename photoId store w =
  let path := getUploadedListFilename filename store in
  let r := readUploadedListFile path w in
  match r.1 with
  | Returned m =>
      if bool_decide (is_Some (mapIndex m (filepath_Base filename)))
      then (Returned (), r.2)
      else
        match m with
        | Some entries =>
            writeUploadedListFile
              (Some (<[filepath_Base filename := photoId]> entries)) path r.2
        | None => (Panicked "assignment to entry in nil map", r.2)
        end
  | Exited c => (Exited c, r.2)
  | Panicked msg => (Panicked msg, r.2)
  end.
Proof.
  unfold recordUpload, func at 1, call, mbind, Stmt_bind, stmt_bind. simpl.
  destruct (readUploadedListFile _ w) as [[m|c|msg] w1]; simpl; [|done..].
  case_bool_decide; simpl; [done|].
  destruct m as [entries|]; simpl; [|done].
  pose proof (writeUploadedListFile_result
    (Some (<[filepath_Base filename := photoId]> entries))
    (getUploadedListFilename filename store) w1) as Hres.
  destruct (writeUploadedListFile _ _ w1) as [res w2]. simpl in Hres.
  by subst res.
Qed.


(** C8, as amended: when the contents of the ledger file fail to parse,
    reading the ledger prints the error and returns the map as
    [json.Unmarshal] left it, which was empty when handed over.  It is the
    empty mapping when the decoder stored nothing before it failed. *)
Theorem read_unparsable_ledger path w data m e :
  files w !! path = Some data → readable path →
  json_Unmarshal data makeMap = (m, Some e) →
  readUploadedListFile path w =
  (Returned m,
   extend w [OsStat path None; ReadFile path data None;
             Stdout (strings_Join ["error:"; e] " " +:+ LF)]).
Proof.
  intros Hf Hr Hjson.
  rewrite (readUploadedListFile_present _ _ _ Hf (Hr _)).
  by rewrite Hjson.
Qed.



End LedgerProperties.

(** ** The per-file pipeline *)

Section UploadProperties.
Context {E : Environment}.

Lemma getUploadedPhotoId_run filename store w :
  ∃ id evs, getUploadedPhotoId filename store w = (Returned id, extend w evs) ∧
            Forall reading evs.
Proof.
  unfold getUploadedPhotoId, func, call, mbind, Stmt_bind, stmt_bind.
  destruct (readUploadedListFile_run (getUploadedListFilename filename store) w)
    as (m & evs & -> & Hevs).
  destruct (mapIndex m (filepath_Base filename)) as [id|]; eauto.
Qed.

Lemma printActions_run {R} kr al w :
  @printActions R kr al w =
  (Next (), extend w (Stdout <$> actionsReport kr al)).
Proof.
  unfold printActions, actionsReport, when, fmt_Print, emit, mbind, Stmt_bind,
    stmt_bind, mret, Stmt_ret, stmt_ret, extend.
  repeat case_bool_decide; simpl; rewrite <- ?app_assoc, ?app_nil_r; try done.
  by destruct w.
Qed.

Lemma wp_GetImageInfo {R} filename exiftool
    (Qn : ImageInfo * option string → World → Prop)
    (Qa : Result R → World → Prop) w :
  Qn (GetImageInfo_result w filename exiftool)
     (extend w [GetImageInfoCall filename exiftool
                  (GetImageInfo_result w filename exiftool).1
                  (GetImageInfo_result w filename exiftool).2]) →
  wp (GetImageInfo filename exiftool) Qn Qa w.
Proof. done. Qed.

Lemma uploadFile_dry_run filename forceUpload w :
  Exiftool (Cmd GetConfig) ≠ "" →
  fwp (uploadFile filename forceUpload true)
    (λ res w',
       res = Returned "" ∧
       ∃ evs, w' = extend w evs ∧ Forall (λ e, ¬ mutation e) evs ∧
         ∀ info,
           GetImageInfoCall filename (Exiftool (Cmd GetConfig)) info None ∈ evs →
           ∃ pre,
             evs = pre ++
               (Stdout <$> actionsReport
                  (keywordsToRemove (evalRules (Keywords info) (Rules GetConfig)))
                  (albumsToAddTo (evalRules (Keywords info) (Rules GetConfig)))) ++
               [Stdout (strings_Join ["Would upload photo to Flickr"] " " +:+ LF)]) w.
Proof.
  intros Hexif. unfold uploadFile. apply fwp_func. cbv zeta.
  (* up to the ledger lookup: nothing but reading *)
  wp_seq. wp_prim.
  apply (wp_cut (λ _ w', ∃ evs, w' = extend w evs ∧ Forall reading evs)).
  { apply wp_when; intros _; [wp_prim|]; rewrite ?extend_extend;
      eexists; (split; [done|]); events. }
  intros _ ? (evs1 & -> & Hevs1).
  wp_seq. apply wp_when; [by rewrite bool_decide_eq_true|intros _].
  wp_seq. apply wp_call. unfold fwp.
  destruct (getUploadedPhotoId_run filename
              (StoreUploadListInImageDir (Upload GetConfig)) (extend w evs1))
    as (uploadedPhotoId & evs2 & -> & Hevs2).
  simpl. rewrite extend_extend.
  assert (Hevs12 : Forall reading (evs1 ++ evs2)) by by apply Forall_app.
  assert (Hquiet : ∀ evs, Forall reading evs →
            Returned "" = Returned "" ∧
            ∃ evs', extend w evs = extend w evs' ∧
              Forall (λ e, ¬ mutation e) evs' ∧
              ∀ info,
                GetImageInfoCall filename (Exiftool (Cmd GetConfig)) info None
                  ∈ evs' → ∃ pre, evs' = pre ++
               (Stdout <$> actionsReport
                  (keywordsToRemove (evalRules (Keywords info) (Rules GetConfig)))
                  (albumsToAddTo (evalRules (Keywords info) (Rules GetConfig)))) ++
               [Stdout (strings_Join ["Would upload photo to Flickr"] " " +:+ LF)]).
  { intros evs Hevs. split; [done|]. exists evs. split_and!; [done| |].
    - eapply Forall_impl; [done|]. apply reading_not_mutation.
    - intros info Hin. by apply reading_no_GetImageInfoCall in Hin. }
  apply (wp_cut (λ _ w', ∃ evs, w' = extend w evs ∧ Forall reading evs)).
  { apply wp_when; intros _; [|by eauto].
    wp_seq. wp_prim. rewrite extend_extend.
    destruct forceUpload.
    - wp_prim. rewrite extend_extend. eexists. split; [done|].
      repeat (apply Forall_app; split; [|events]). done.
    - wp_seq. wp_prim. wp_seq. wp_prim. wp_prim. rewrite !extend_extend.
      apply Hquiet.
      repeat (apply Forall_app; split; [|events]). done. }
  intros _ ? (evs3 & -> & Hevs3).
  (* the metadata *)
  wp_seq. apply wp_GetImageInfo.
  destruct (GetImageInfo_result (extend w evs3) filename
              (Exiftool (Cmd GetConfig))) as [info err].
  simpl. rewrite extend_extend.
  wp_seq. apply wp_when.
  { intros Herr. wp_prim. destruct err as [e|]; [|done].
    split; [done|]. eexists. split_and!; [done| |].
    - apply Forall_app. split; [|events].
      eapply Forall_impl; [done|]. apply reading_not_mutation.
    - intros info' Hin. apply elem_of_app in Hin as [Hin|Hin].
      + by apply reading_no_GetImageInfoCall in Hin.
      + by apply list_elem_of_singleton in Hin. }
  intros Herr. destruct err as [e|]; [done|].
  (* the report, and the dry-run exit *)
  wp_seq. eapply wp_run; [apply printActions_run|]. cbv beta.
  rewrite extend_extend.
  wp_seq. wp_seq. wp_prim. wp_prim. rewrite extend_extend.
  split; [done|]. eexists. split_and!; [done| |].
  - rewrite !Forall_app. split_and!.
    + eapply Forall_impl; [exact Hevs3|]. apply reading_not_mutation.
    + events.
    + apply Forall_fmap, Forall_true. intros s. simpl. tauto.
    + events.
  - intros info' Hin.
    rewrite !elem_of_app in Hin. destruct Hin as [[[Hin|Hin]|Hin]|Hin].
    + by apply reading_no_GetImageInfoCall in Hin.
    + apply list_elem_of_singleton in Hin. injection Hin as ->.
      exists (evs3 ++ [GetImageInfoCall filename (Exiftool (Cmd GetConfig))
                         info None]).
      by rewrite <- !app_assoc.
    + apply list_elem_of_fmap in Hin as (? & ? & _). done.
    + by apply list_elem_of_singleton in Hin.
Qed.

Lemma wp_flickr_UploadFile {R} client path params
    (Qn : string * option string → World → Prop)
    (Qa : Result R → World → Prop) w :
  Qn (flickr_UploadFile_result w client path params)
     (extend w [FlickrUploadFile client path params
                  (flickr_UploadFile_result w client path params).1
                  (flickr_UploadFile_result w client path params).2]) →
  wp (flickr_UploadFile client path params) Qn Qa w.
Proof. done. Qed.

Lemma wp_exec_Run {R} name args dir (Qn : option string → World → Prop)
    (Qa : Result R → World → Prop) w :
  Qn (exec_Run_result w name args dir)
     (extend w [ExecRun name args dir (exec_Run_result w name args dir)]) →
  wp (exec_Run name args dir) Qn Qa w.
Proof. done. Qed.

Lemma wp_photos_SetDates {R} client photoId datePosted dateTaken
    (Qn : string * option string → World → Prop)
    (Qa : Result R → World → Prop) w :
  Qn (photos_SetDates_result w client photoId datePosted dateTaken)
     (extend w [PhotosSetDates client photoId datePosted dateTaken
                  (photos_SetDates_result w client photoId datePosted dateTaken).1
                  (photos_SetDates_result w client photoId datePosted dateTaken).2]) →
  wp (photos_SetDates client photoId datePosted dateTaken) Qn Qa w.
Proof. done. Qed.

Lemma wp_photosets_AddPhoto {R} client photosetId photoId
    (Qn : string * option string → World → Prop)
    (Qa : Result R → World → Prop) w :
  Qn (photosets_AddPhoto_result w client photosetId photoId)
     (extend w [PhotosetsAddPhoto client photosetId photoId
                  (photosets_AddPhoto_result w client photosetId photoId).1
                  (photosets_AddPhoto_result w client photosetId photoId).2]) →
  wp (photosets_AddPhoto client photosetId photoId) Qn Qa w.
Proof. done. Qed.

(** Stripping the keywords runs exiftool and may print; it touches no
    file of the process and always falls through. *)
Lemma removeKeywordsFromFile_run {R} exiftool filename kr w :
  ∃ evs, @removeKeywordsFromFile E R exiftool filename kr w =
           (Next (), extend w evs) ∧
         Forall stripping evs.
Proof.
  unfold removeKeywordsFromFile, when.
  destruct (_ && _); [|exists []; by rewrite extend_nil].
  unfold mbind, Stmt_bind, stmt_bind, exec_Run. cbv zeta.
  destruct (exec_Run_result _ _ _ _) as [e|]; simpl.
  - eexists [_; _]. split.
    + unfold fmt_Println, emit, extend. simpl. by rewrite <- app_assoc.
    + events.
  - eexists [_]. split; [done|]. events.
Qed.

(** Recording an upload reads and may write the ledger; it returns or
    panics. *)
Lemma recordUpload_since filename photoId store w :
  fwp (recordUpload filename photoId store)
    (λ res w', (res = Returned () ∨ ∃ msg, res = Panicked msg) ∧
               since w ledgerAccess w') w.
Proof.
  unfold fwp. rewrite recordUpload_unfold. cbv zeta.
  destruct (readUploadedListFile_run
              (getUploadedListFilename filename store) w)
    as (m & evs & -> & Hevs). simpl.
  assert (Hsince : since w ledgerAccess (extend w evs)).
  { apply since_extend; [apply since_refl|].
    eapply Forall_impl; [done|]. by intros []. }
  case_bool_decide; simpl; [by auto|].
  destruct m as [entries|]; simpl; [|by eauto].
  split; [left; apply writeUploadedListFile_result|].
  eapply since_trans; [done|].
  unfold writeUploadedListFile, func, mbind, Stmt_bind, stmt_bind,
    ioutil_WriteFile.
  destruct (json_MarshalIndent _ _ _) as [data [e|]]; simpl;
    destruct (ioutil_WriteFile_error _ _ _) as [[? [?|]]|]; simpl.
  all: since_raw.
Qed.

(** The corrections after the upload call Flickr and print. *)
Lemma wp_postUpload {R} config client info photoId albums w :
  wp (@postUpload E R config client info photoId albums)
     (λ _ w', since w afterUpload w') (λ _ _, False) w.
Proof.
  unfold postUpload. cbv zeta.
  apply (wp_cut (λ _ w', since w afterUpload w')).
  - apply wp_when; intros _; [|apply since_refl].
    wp_seq. apply wp_photos_SetDates.
    destruct (photos_SetDates_result _ _ _ _ _) as [resp err]. simpl.
    apply wp_when; intros _; [wp_prim|]; rewrite ?extend_extend;
      (apply since_extend; [apply since_refl|events]).
  - intros _ w1 Hw1. apply wp_when; intros _; [|done].
    apply (wp_forRange (λ _ w', since w afterUpload w')); [done|].
    intros _ album w2 _ Hw2.
    wp_seq. apply wp_photosets_AddPhoto.
    destruct (photosets_AddPhoto_result _ _ _ _) as [resp err]. simpl.
    destruct (notNil err); wp_prim; rewrite extend_extend;
      (apply since_extend; [done|events]).
Qed.


(** C9: with dry-run enabled, [uploadFile] returns the empty identifier,
    leaves every file as it was ([extend] keeps the files), and does
    nothing that is a mutation: no exiftool run on the image, no write to a
    ledger, no call to Flickr.  When the metadata was fetched, the last
    things it did were to print the computed actions and then the line
    that says what would have been uploaded. *)
Theorem dry_run_changes_nothing filename forceUpload w :
  Exiftool (Cmd GetConfig) ≠ "" →
  ∃ evs,
    uploadFile filename forceUpload true w = (Returned "", extend w evs) ∧
    Forall (λ e, ¬ mutation e) evs ∧
    ∀ info,
      GetImageInfoCall filename (Exiftool (Cmd GetConfig)) info None ∈ evs →
      ∃ pre,
        evs = pre ++
          (Stdout <$> actionsReport
             (keywordsToRemove (evalRules (Keywords info) (Rules GetConfig)))
             (albumsToAddTo (evalRules (Keywords info) (Rules GetConfig)))) ++
          [Stdout ("Would upload photo to Flickr" +:+ LF)].
Proof.
  intros Hexif.
  destruct (fwp_elim _ _ _ (uploadFile_dry_run filename forceUpload w Hexif))
    as (res & w' & Hrun & -> & evs & -> & Hquiet & Hreport).
  exists evs. by split_and!.
Qed.


Lemma Tags_uploadParams title tags info :
  flickr.Tags (uploadParams title tags info) = tags.
Proof. unfold uploadParams. by case_bool_decide. Qed.

(** What [uploadFile] has done when it ends: it only looked at the ledger;
    or it failed to fetch the metadata; or it fetched [info], and every
    upload after that carries the tags computed from [info]. *)
Lemma uploadFile_tags filename forceUpload dryRun w :
  fwp (uploadFile filename forceUpload dryRun)
    (λ res w',
       since w reading w' ∨
       (∃ evs info e,
          w' = extend w (evs ++ [GetImageInfoCall filename
                                   (Exiftool (Cmd GetConfig)) info (Some e)]) ∧
          Forall reading evs) ∨
       (∃ evs info w1,
          Forall reading evs ∧
          w1 = extend w (evs ++ [GetImageInfoCall filename
                                   (Exiftool (Cmd GetConfig)) info None]) ∧
          since w1 (taggedFor info) w')) w.
Proof.
  unfold uploadFile. apply fwp_func. cbv zeta.
  assert (Hearly : ∀ evs, Forall reading evs → since w reading (extend w evs)).
  { intros evs Hevs. apply since_extend; [apply since_refl|done]. }
  wp_seq. wp_prim.
  apply (wp_cut (λ _ w', ∃ evs, w' = extend w evs ∧ Forall reading evs)).
  { apply wp_when; intros _; [wp_prim|]; rewrite ?extend_extend;
      (eexists; split; [done|]); events. }
  intros _ ? (evs1 & -> & Hevs1).
  wp_seq. apply wp_when; intros _.
  { wp_seq. wp_prim. wp_seq. wp_prim. wp_prim. rewrite !extend_extend.
    left. apply Hearly. events. }
  wp_seq. apply wp_call. unfold fwp.
  destruct (getUploadedPhotoId_run filename
              (StoreUploadListInImageDir (Upload GetConfig)) (extend w evs1))
    as (uploadedPhotoId & evs2 & -> & Hevs2).
  simpl. rewrite extend_extend.
  apply (wp_cut (λ _ w', ∃ evs, w' = extend w evs ∧ Forall reading evs)).
  { apply wp_when; intros _; [|eexists; split; [done|]; events].
    wp_seq. wp_prim. rewrite extend_extend.
    destruct forceUpload.
    - wp_prim. rewrite extend_extend. eexists. split; [done|]. events.
    - wp_seq. wp_prim. wp_seq. wp_prim. wp_prim. rewrite !extend_extend.
      left. apply Hearly. events. }
  intros _ ? (evs3 & -> & Hevs3).
  wp_seq. apply wp_GetImageInfo.
  destruct (GetImageInfo_result (extend w evs3) filename
              (Exiftool (Cmd GetConfig))) as [info err].
  simpl. rewrite extend_extend.
  wp_seq. apply wp_when; intros Herr.
  { wp_prim. destruct err as [e|]; [|done]. right. left. eauto. }
  destruct err as [e|]; [done|].
  set (w1 := extend w (evs3 ++ [GetImageInfoCall filename
                                  (Exiftool (Cmd GetConfig)) info None])).
  eapply wp_mono with
    (Qn := λ _ _, False)
    (Qa := λ _ w', since w1 (taggedFor info) w');
    [|done|intros res w' Hw'; right; right; by exists evs3, info, w1].
  wp_seq. eapply wp_run; [apply printActions_run|]. cbv beta.
  wp_seq. apply wp_when; intros _.
  { wp_seq. wp_prim. wp_prim. rewrite !extend_extend.
    apply since_extend; [apply since_refl|].
    events. apply Forall_fmap, Forall_true. by intros ?. }
  wp_seq.
  match goal with
  | |- wp (removeKeywordsFromFile ?x ?f ?k) _ _ ?w0 =>
      destruct (@removeKeywordsFromFile_run string x f k w0)
        as (evs5 & Hrun & Hevs5)
  end.
  eapply wp_run; [exact Hrun|]. cbv beta. rewrite !extend_extend.
  wp_seq. wp_prim. rewrite extend_extend.
  wp_seq. apply wp_flickr_UploadFile.
  destruct (flickr_UploadFile_result _ _ _ _) as [responseID uerr].
  simpl. rewrite extend_extend.
  match goal with
  | |- wp _ _ _ ?w0 =>
      assert (Hw5 : since w1 (taggedFor info) w0);
      [|revert Hw5; generalize w0; intros w5 Hw5]
  end.
  { apply since_extend; [apply since_refl|].
    rewrite !Forall_app. split_and!.
    - apply Forall_fmap, Forall_true. by intros ?.
    - eapply Forall_impl; [exact Hevs5|]. intros []; simpl; tauto.
    - events.
    - apply Forall_cons_2; [|done]. simpl. apply Tags_uploadParams. }
  wp_seq. apply wp_when; intros Huerr.
  { wp_seq. wp_prim. wp_prim. apply since_extend; [done|events]. }
  wp_seq. apply wp_call.
  eapply fwp_mono; [apply recordUpload_since|]. cbv beta.
  intros res w6 [Hres Hw6].
  assert (Hw6' : since w1 (taggedFor info) w6).
  { eapply since_trans; [exact Hw5|]. eapply since_weaken; [exact Hw6|].
    intros []; simpl; tauto. }
  destruct Hres as [->|[msg ->]]; [|done].
  wp_seq. wp_prim.
  apply (wp_cut (λ _ w', since w1 (taggedFor info) w')).
  { eapply wp_mono; [apply wp_postUpload| |done].
    intros ? w7 Hw7. eapply since_trans; [|eapply since_weaken; [exact Hw7|]].
    - apply since_extend; [exact Hw6'|events].
    - intros []; simpl; tauto. }
  intros _ w7 Hw7.
  wp_seq. wp_prim. wp_seq. wp_prim. wp_prim.
  rewrite extend_extend. apply since_extend; [done|events].
Qed.

(** C4: once all rules are evaluated, the keywords to add are the
    original keywords minus the removal set when some keyword was marked
    for removal, and the original keywords unchanged when none was.  They
    are what [uploadFile] uploads: whenever it calls [flickr.UploadFile],
    the tags are these keywords, computed from the metadata it fetched and
    the configured rules, each in double quotes. *)
Theorem keywordsToAdd_after_rules {L : KeywordSetsLaws env_keywords}
    keywords rules :
  (keywordsToRemove (evalRules keywords rules) ≠ [] →
   keywordsToAdd keywords (evalRules keywords rules) =
     Difference keywords (keywordsToRemove (evalRules keywords rules)) ∧
   ∀ k, k ∈ keywordsToAdd keywords (evalRules keywords rules) ↔
        k ∈ keywords ∧ k ∉ keywordsToRemove (evalRules keywords rules)) ∧
  (keywordsToRemove (evalRules keywords rules) = [] →
   keywordsToAdd keywords (evalRules keywords rules) = keywords) ∧
  (∀ filename forceUpload dryRun w evs info client path params responseID err,
     keywords = Keywords info → rules = Rules GetConfig →
     trace (uploadFile filename forceUpload dryRun w).2 = trace w ++ evs →
     GetImageInfoCall filename (Exiftool (Cmd GetConfig)) info None ∈ evs →
     FlickrUploadFile client path params responseID err ∈ evs →
     flickr.Tags params =
     quoteTags (keywordsToAdd keywords (evalRules keywords rules))).
Proof.
  destruct (keywordsToAdd_spec keywords rules) as [Hremove Hkeep].
  split_and!; [done..|].
  intros filename forceUpload dryRun w evs info client path params responseID
    err -> -> Htrace Hinfo Hupload.
  destruct (fwp_elim _ _ _ (uploadFile_tags filename forceUpload dryRun w))
    as (res & w' & Hrun & Hpost).
  rewrite Hrun in Htrace. simpl in Htrace.
  destruct Hpost as [(evs' & Htrace' & Hevs')|
                     [(evs' & info' & e & -> & Hevs')|
                      (evs' & info' & w1 & Hevs' & -> & evs2 & Htrace' & Hevs2)]].
  - rewrite Htrace' in Htrace. apply app_inv_head in Htrace as ->.
    by apply reading_no_GetImageInfoCall in Hinfo.
  - simpl in Htrace. apply app_inv_head in Htrace as <-.
    apply elem_of_app in Hinfo as [Hinfo|Hinfo].
    + by apply reading_no_GetImageInfoCall in Hinfo.
    + by apply list_elem_of_singleton in Hinfo.
  - rewrite Htrace' in Htrace. simpl in Htrace.
    rewrite <- app_assoc in Htrace. apply app_inv_head in Htrace as <-.
    rewrite Forall_forall in Hevs', Hevs2.
    assert (info' = info) as ->.
    { rewrite !elem_of_app in Hinfo. destruct Hinfo as [[Hinfo|Hinfo]|Hinfo].
      - by apply reading_no_GetImageInfoCall in Hinfo;
          [|by apply Forall_forall].
      - apply list_elem_of_singleton in Hinfo. by injection Hinfo.
      - by apply Hevs2 in Hinfo. }
    rewrite !elem_of_app in Hupload.
    destruct Hupload as [[Hupload|Hupload]|Hupload].
    + by apply Hevs' in Hupload.
    + by apply list_elem_of_singleton in Hupload.
    + by apply Hevs2 in Hupload.
Qed.

(** The part of C1 that holds: without an exiftool path the file is not
    processed at all. *)
Lemma uploadFile_without_exiftool filename forceUpload dryRun w :
  Exiftool (Cmd GetConfig) = "" →
  ∃ lines,
    uploadFile filename forceUpload dryRun w =
    (Exited 2, extend w (Stdout <$> lines)).
Proof.
  intros Hexif.
  cut (fwp (uploadFile filename forceUpload dryRun)
         (λ res w', res = Exited 2 ∧ ∃ lines, w' = extend w (Stdout <$> lines)) w).
  { intros (res & w' & Hrun & -> & lines & ->)%fwp_elim. eauto. }
  unfold uploadFile. apply fwp_func. cbv zeta.
  wp_seq. wp_prim.
  apply (wp_cut (λ _ w', ∃ lines, w' = extend w (Stdout <$> lines))).
  { apply wp_when; intros _; [wp_prim; rewrite extend_extend|].
    - by eexists [_; _].
    - by eexists [_]. }
  intros _ ? (lines & ->).
  wp_seq. apply wp_when; [intros _|by rewrite Hexif].
  wp_seq. wp_prim. wp_seq. wp_prim. wp_prim. rewrite !extend_extend.
  split; [done|]. eexists (lines ++ [_; _]). by rewrite fmap_app.
Qed.

Lemma Run_without_exiftool args w :
  args ≠ [] → Exiftool (Cmd GetConfig) = "" →
  ∃ lines, Run args w = (Exited 2, extend w (Stdout <$> lines)).
Proof.
  intros Hargs Hexif. destruct args as [|filename args]; [done|].
  unfold Run, func, when, mbind, Stmt_bind, stmt_bind. simpl.
  destruct (flags_GetBool "force") as [forceUpload ferr].
  destruct (flags_GetBool "dry-run") as [dryRun derr].
  unfold mbind, Stmt_bind, stmt_bind, call. simpl.
  destruct (uploadFile_without_exiftool filename
              (if notNil ferr then false else forceUpload)
              (if notNil derr then false else dryRun) w Hexif)
    as (lines & ->). eauto.
Qed.

(** With an exiftool path configured, [uploadFile] never exits: whatever
    the credentials are, it returns to the loop of [Run] (or panics in
    [recordUpload]). *)
Lemma uploadFile_with_exiftool filename forceUpload dryRun w :
  Exiftool (Cmd GetConfig) ≠ "" →
  ∀ c, (uploadFile filename forceUpload dryRun w).1 ≠ Exited c.
Proof.
  intros Hexif.
  cut (fwp (uploadFile filename forceUpload dryRun)
         (λ res _, ∀ c, res ≠ Exited c) w); [done|].
  unfold uploadFile. apply fwp_func. cbv zeta.
  wp_seq. wp_prim.
  apply (wp_cut (λ _ _, True)).
  { apply wp_when; intros _; [wp_prim|]; done. }
  intros _ w1 _.
  wp_seq. apply wp_when; [by rewrite bool_decide_eq_true|intros _].
  wp_seq. apply wp_call. unfold fwp.
  destruct (getUploadedPhotoId_run filename
              (StoreUploadListInImageDir (Upload GetConfig)) w1)
    as (uploadedPhotoId & evs2 & -> & _).
  simpl.
  apply (wp_cut (λ _ _, True)).
  { apply wp_when; intros _; [|done].
    wp_seq. wp_prim. destruct forceUpload; [by wp_prim|].
    wp_seq. wp_prim. wp_seq. wp_prim. by wp_prim. }
  intros _ w3 _.
  wp_seq. apply wp_GetImageInfo.
  destruct (GetImageInfo_result w3 filename (Exiftool (Cmd GetConfig)))
    as [info err].
  simpl.
  wp_seq. apply wp_when; intros _; [by wp_prim|].
  wp_seq. eapply wp_run; [apply printActions_run|]. cbv beta.
  wp_seq. apply wp_when; intros _.
  { wp_seq. wp_prim. by wp_prim. }
  wp_seq.
  match goal with
  | |- wp (removeKeywordsFromFile ?x ?f ?k) _ _ ?w0 =>
      destruct (@removeKeywordsFromFile_run string x f k w0)
        as (evs5 & Hrun & _)
  end.
  eapply wp_run; [exact Hrun|]. cbv beta.
  wp_seq. wp_prim.
  wp_seq. apply wp_flickr_UploadFile.
  destruct (flickr_UploadFile_result _ _ _ _) as [responseID uerr].
  simpl.
  wp_seq. apply wp_when; intros _.
  { wp_seq. wp_prim. by wp_prim. }
  wp_seq. apply wp_call.
  eapply fwp_mono; [apply recordUpload_since|]. cbv beta.
  intros res w6 [[->|[msg ->]] _]; [|done].
  wp_seq. wp_prim.
  apply (wp_cut (λ _ _, True)).
  { eapply wp_mono; [apply wp_postUpload|done..]. }
  intros _ w7 _.
  wp_seq. wp_prim. wp_seq. wp_prim. by wp_prim.
Qed.

(** So with an exiftool path configured a run over at least one file is
    never aborted by an exit, with or without credentials. *)
Lemma Run_with_exiftool args w :
  args ≠ [] → Exiftool (Cmd GetConfig) ≠ "" →
  ∀ c, (Run args w).1 ≠ Exited c.
Proof.
  intros Hargs Hexif.
  cut (fwp (Run args) (λ res _, ∀ c, res ≠ Exited c) w); [done|].
  unfold Run. apply fwp_func.
  wp_seq. apply wp_when; [intros Hlen|intros _].
  { apply bool_decide_eq_true in Hlen. by destruct args. }
  destruct (flags_GetBool "force") as [forceUpload ferr].
  destruct (flags_GetBool "dry-run") as [dryRun derr]. cbv zeta.
  apply (wp_cut (λ _ _, True)).
  { apply (wp_forRange (λ _ _, True)); [done|].
    intros photoIds filename w1 _ _.
    wp_seq. apply wp_call. unfold fwp.
    pose proof (uploadFile_with_exiftool filename
                  (if notNil ferr then false else forceUpload)
                  (if notNil derr then false else dryRun) w1 Hexif) as Hno.
    destruct (uploadFile _ _ _ w1) as [[photoId|c|msg] w2]; simpl in *.
    - by case_bool_decide; wp_prim.
    - by destruct (Hno c).
    - done. }
  intros photoIds w1 _.
  wp_seq. wp_prim. wp_seq. wp_prim.
  apply wp_when; intros _; [by wp_prim|done].
Qed.

End UploadProperties.

(** ** The properties on the concrete environment *)

Lemma Demo_keywordSets_laws : KeywordSetsLaws Demo.keywordSets.
Proof.
  split; simpl; unfold Demo.intersection, Demo.difference.
  - intros a b k. rewrite list_elem_of_filter. tauto.
  - intros a b _ Hb. by apply NoDup_filter.
  - intros a b k. rewrite list_elem_of_filter. tauto.
Qed.

Lemma Demo_readable a path : @readable (Demo.env a) path.
Proof. by intros w. Qed.



Ltac by_computation := apply (bool_decide_unpack _); vm_compute; exact I.
Ltac find_event :=
  vm_compute; repeat first [apply list_elem_of_here | apply list_elem_of_further].

(** C2, on the family rule and an image tagged private and family. *)
Lemma include_conditions_witness :
  NoDup ["private"; "family"] ∧
  ConditionSets (Condition Demo.familyRule) ∧
  @survivesExcludes Demo.keywordSets ["private"; "family"] Demo.familyRule ∧
  ∃ m, @applicable Demo.keywordSets ["private"; "family"] Demo.familyRule m.
Proof.
  assert (H1 : NoDup ["private"; "family"]) by by_computation.
  assert (H2 : ConditionSets (Condition Demo.familyRule))
    by (repeat split; by_computation).
  assert (H3 : @survivesExcludes Demo.keywordSets ["private"; "family"]
                 Demo.familyRule) by (vm_compute; discriminate).
  split_and!; [done..|].
  destruct (@include_conditions_decide_applicability Demo.keywordSets
              Demo_keywordSets_laws ["private"; "family"] Demo.familyRule
              H1 H2 H3) as [Hall _].
  destruct Hall as [Hiff _]; [discriminate|].
  apply Hiff. intros k Hk. apply list_elem_of_singleton in Hk as ->.
  apply list_elem_of_further, list_elem_of_here.
Defined.

(** C3, on the family rule and an image tagged hidden. *)
Lemma excluded_rule_witness :
  NoDup ["hidden"; "family"] ∧
  ConditionSets (Condition Demo.familyRule) ∧
  "hidden" ∈ ExcludesAny (Condition Demo.familyRule) ∧
  @evalRules Demo.keywordSets ["hidden"; "family"]
    ([Demo.privateRule] ++ Demo.familyRule :: []) =
  @evalRules Demo.keywordSets ["hidden"; "family"] ([Demo.privateRule] ++ []).
Proof.
  assert (H1 : NoDup ["hidden"; "family"]) by by_computation.
  assert (H2 : ConditionSets (Condition Demo.familyRule))
    by (repeat split; by_computation).
  assert (H3 : "hidden" ∈ ExcludesAny (Condition Demo.familyRule))
    by apply list_elem_of_here.
  split_and!; [done..|].
  apply (@excluded_rule_contributes_nothing Demo.keywordSets
           Demo_keywordSets_laws ["hidden"; "family"] Demo.familyRule H1 H2).
  right. split; [discriminate|]. exists "hidden".
  split; [done|apply list_elem_of_here].
Defined.

(** C4, on the rules of the scenario: the keyword private is removed. *)
Lemma keywordsToAdd_witness :
  keywordsToRemove
    (@evalRules Demo.keywordSets ["private"; "family"] (Rules Demo.config)) ≠ [] ∧
  ∀ k, k ∈ @keywordsToAdd Demo.keywordSets ["private"; "family"]
             (@evalRules Demo.keywordSets ["private"; "family"]
                (Rules Demo.config)) ↔
       k ∈ ["private"; "family"] ∧
       k ∉ keywordsToRemove
             (@evalRules Demo.keywordSets ["private"; "family"]
                (Rules Demo.config)).
Proof.
  assert (H1 : keywordsToRemove
                 (@evalRules Demo.keywordSets ["private"; "family"]
                    (Rules Demo.config)) ≠ [])
    by (vm_compute; discriminate).
  split; [done|].
  apply (@keywordsToAdd_after_rules (Demo.env Demo.answers)
           Demo_keywordSets_laws ["private"; "family"] (Rules Demo.config)).
  exact H1.
Defined.




(** C8, as amended, on the ledger with a member that is a number. *)
Lemma read_unparsable_witness :
  @readUploadedListFile (Demo.env Demo.answers) Demo.ledgerPath
    Demo.corruptWorld =
  (Returned (Some {[ "a.jpg" := "1"; "b.jpg" := "" ]}),
   extend Demo.corruptWorld
     [OsStat Demo.ledgerPath None;
      ReadFile Demo.ledgerPath Demo.corruptLedger None;
      Stdout (strings_Join
                ["error:";
                 "json: cannot unmarshal number into Go value of type string"]
                " " +:+ LF)]).
Proof.
  apply (@read_unparsable_ledger (Demo.env Demo.answers)).
  - reflexivity.
  - apply Demo_readable.
  - vm_compute. reflexivity.
Defined.

(** C8, as stated, fails on that ledger.  Its contents do not parse as a
    map of strings: the decoder, which like [encoding/json] keeps what it
    has decoded when a value is of the wrong type, returns an error.  The
    error is printed, and the mapping that is returned and then used is not
    the empty one: it has two entries, and the lookup of [a.jpg] finds an
    identifier. *)
Lemma unparsable_ledger_keeps_entries :
  (@json_Unmarshal (Demo.env Demo.answers) Demo.corruptLedger makeMap).2 =
    Some "json: cannot unmarshal number into Go value of type string" ∧
  (@readUploadedListFile (Demo.env Demo.answers) Demo.ledgerPath
     Demo.corruptWorld).1 =
    Returned (Some {[ "a.jpg" := "1"; "b.jpg" := "" ]}) ∧
  mapIndex (Some {[ "a.jpg" := "1"; "b.jpg" := "" ]}) "a.jpg" = Some "1" ∧
  mapIndex makeMap "a.jpg" = None ∧
  (@getUploadedPhotoId (Demo.env Demo.answers) "photos/a.jpg" true
     Demo.corruptWorld).1 = Returned "1".
Proof. split_and!; vm_compute; reflexivity. Qed.

(** C9, on a dry run of the scenario. *)
Lemma dry_run_witness :
  ∃ evs,
    @uploadFile (Demo.env Demo.answers) "photos/IMG_1.jpg" false true
      Demo.emptyWorld = (Returned "", extend Demo.emptyWorld evs) ∧
    Forall (λ e, ¬ mutation e) evs ∧
    ∃ pre,
      evs = pre ++
        (Stdout <$> actionsReport ["private"] [mkAlbum "7215" "Family"]) ++
        [Stdout ("Would upload photo to Flickr" +:+ LF)].
Proof.
  destruct (@dry_run_changes_nothing (Demo.env Demo.answers)
              "photos/IMG_1.jpg" false Demo.emptyWorld)
    as (evs & Hrun & Hquiet & Hreport); [discriminate|].
  exists evs. split_and!; [done..|].
  apply (Hreport Demo.imageInfo).
  assert (Htrace : trace (@uploadFile (Demo.env Demo.answers)
                            "photos/IMG_1.jpg" false true Demo.emptyWorld).2 = evs)
    by (by rewrite Hrun).
  rewrite <- Htrace. find_event.
Defined.


(** C1 fails without credentials: the run prints that it is unable to
    continue and goes on to look the file up in the ledger, to fetch its
    metadata and to call Flickr, and it ends normally. *)
Lemma missing_credentials_do_not_abort :
  ApiKey (Flickr (@GetConfig (Demo.env Demo.noCredentials))) = "" ∧
  (@Run (Demo.env Demo.noCredentials) ["photos/IMG_1.jpg"]
     Demo.emptyWorld).1 = Returned () ∧
  OsStat Demo.ledgerPath
      (Some ("stat " +:+ Demo.ledgerPath +:+ ": no such file or directory"))
    ∈ trace (@Run (Demo.env Demo.noCredentials) ["photos/IMG_1.jpg"]
               Demo.emptyWorld).2 ∧
  GetImageInfoCall "photos/IMG_1.jpg" "/usr/bin/exiftool" Demo.imageInfo None
    ∈ trace (@Run (Demo.env Demo.noCredentials) ["photos/IMG_1.jpg"]
               Demo.emptyWorld).2 ∧
  FlickrUploadFile (flickr.mkClient "" "" "" "") "photos/IMG_1.jpg" Demo.params
      "" (Some "Invalid API Key (Key has invalid format)")
    ∈ trace (@Run (Demo.env Demo.noCredentials) ["photos/IMG_1.jpg"]
               Demo.emptyWorld).2.
Proof. split_and!; [reflexivity|vm_compute; reflexivity|find_event..]. Qed.
